(** * OpenAPI conformance checker: [.specify/scripts/validate-openapi.py]

    A shallow embedding of [validate_openapi_spec] and of the script's
    entry point, followed by the properties of the rule engine.

    - The tree built by [yaml.safe_load] is the type [yaml]: scalars, sequences
      and mappings.  A mapping is an association list in insertion order, as a
      Python dict iterates; its keys are scalars (the loader refuses unhashable
      keys).  A float is kept as its printed form, since the script never
      computes with one.  Timestamps, binary scalars and sets are left out.
    - A Python expression that can raise is a value of [outcome]; a statement
      is a computation in [M], which threads the two finding lists and the
      console transcript and stops at the first exception.
    - [print] calls are kept as structured [line]s carrying the interpolated
      values; the finding messages are the script's strings.
    - Strings are byte strings; [upper] and [lower] are Python's on ASCII
      strings only. *)

From Stdlib Require Import String Ascii List ZArith Bool Arith Lia DecimalString.
Import ListNotations.
Open Scope string_scope.
Open Scope list_scope.

(** ** The parsed document *)

Inductive scalar : Type :=
| SNone
| SBool (b : bool)
| SInt (z : Z)
| SFloat (repr : string)
| SStr (s : string).

#[warnings="-register-all"]
Inductive yaml : Type :=
| YScalar (c : scalar)
| YList (l : list yaml)
| YDict (d : list (scalar * yaml)).

Definition YStr (s : string) : yaml := YScalar (SStr s).

(** What the loader (lines 24-33) hands to the rest of the function. *)
Inductive file_read : Type :=
| FileNotFound
| YAMLError (e : string)
| Loaded (content : string) (spec : yaml).

(** ** Python values and built-ins *)

Inductive exn : Type := KeyError | TypeError | AttributeError.

Inductive outcome (A : Type) : Type :=
| Return (a : A)
| Raise (e : exn).
Arguments Return {A} a.
Arguments Raise {A} e.

Definition obind {A B} (o : outcome A) (k : A -> outcome B) : outcome B :=
  match o with
  | Return a => k a
  | Raise e => Raise e
  end.

Declare Scope py_scope.
Delimit Scope py_scope with py.
Notation "x <~ o ; k" := (obind o (fun x => k))
  (at level 61, o at next level, right associativity) : py_scope.

(** [k == s] for a key [k] and a [str] constant [s]. *)
Definition scalar_is (s : string) (k : scalar) : bool :=
  match k with
  | SStr t => String.eqb t s
  | _ => false
  end.

Definition value_is (s : string) (v : yaml) : bool :=
  match v with
  | YScalar k => scalar_is s k
  | _ => false
  end.

(** [d.get(k)] on the entries of a dict, for a [str] key. *)
Fixpoint dict_get (d : list (scalar * yaml)) (k : string) : option yaml :=
  match d with
  | [] => None
  | (k', v) :: rest => if scalar_is k k' then Some v else dict_get rest k
  end.

Definition isinstance_dict (v : yaml) : bool :=
  match v with
  | YDict _ => true
  | _ => false
  end.

(** [v[k]] *)
Definition subscript (v : yaml) (k : string) : outcome yaml :=
  match v with
  | YDict d =>
      match dict_get d k with
      | Some x => Return x
      | None => Raise KeyError
      end
  | _ => Raise TypeError
  end.

(** [v.get(k, default)] *)
Definition get (v : yaml) (k : string) (default : yaml) : outcome yaml :=
  match v with
  | YDict d =>
      match dict_get d k with
      | Some x => Return x
      | None => Return default
      end
  | _ => Raise AttributeError
  end.

(** [v.items()] *)
Definition items (v : yaml) : outcome (list (scalar * yaml)) :=
  match v with
  | YDict d => Return d
  | _ => Raise AttributeError
  end.

Fixpoint chars (s : string) : list yaml :=
  match s with
  | EmptyString => []
  | String c s' => YStr (String c EmptyString) :: chars s'
  end.

(** [iter(v)]: what a [for] clause walks over. *)
Definition iter (v : yaml) : outcome (list yaml) :=
  match v with
  | YList l => Return l
  | YDict d => Return (map (fun kv => YScalar (fst kv)) d)
  | YScalar (SStr s) => Return (chars s)
  | YScalar _ => Raise TypeError
  end.

(** [pat in s] for two strings. *)
Fixpoint substring_of (pat s : string) : bool :=
  prefix pat s ||
  match s with
  | EmptyString => false
  | String _ s' => substring_of pat s'
  end.

(** [k in v] for a [str] constant [k]. *)
Definition contains (v : yaml) (k : string) : outcome bool :=
  match v with
  | YDict d => Return (existsb (fun kv => scalar_is k (fst kv)) d)
  | YList l => Return (existsb (value_is k) l)
  | YScalar (SStr s) => Return (substring_of k s)
  | YScalar _ => Raise TypeError
  end.

Definition ascii_upper (c : ascii) : ascii :=
  let n := nat_of_ascii c in
  if ((97 <=? n) && (n <=? 122))%nat then ascii_of_nat (n - 32) else c.

Definition ascii_lower (c : ascii) : ascii :=
  let n := nat_of_ascii c in
  if ((65 <=? n) && (n <=? 90))%nat then ascii_of_nat (n + 32) else c.

(** [s.upper()] and [s.lower()] for a string of ASCII characters.  Python
    also maps the letters outside ASCII; a byte above 127 is left as it is
    here, so for a string holding one these two functions do not give
    Python's result.  The method names of checks 4 and 5 are ASCII; a property
    that states the upper-casing of a key of the document assumes the key
    ASCII. *)
Fixpoint upper (s : string) : string :=
  match s with
  | EmptyString => EmptyString
  | String c s' => String (ascii_upper c) (upper s')
  end.

Fixpoint lower (s : string) : string :=
  match s with
  | EmptyString => EmptyString
  | String c s' => String (ascii_lower c) (lower s')
  end.

(** [k.upper()] on a dict key: only a [str] has the method. *)
Definition key_upper (k : scalar) : outcome string :=
  match k with
  | SStr s => Return (upper s)
  | _ => Raise AttributeError
  end.

Definition str_of_nat (n : nat) : string := NilZero.string_of_uint (Nat.to_uint n).

(** [str(k)], as an f-string formats a key. *)
Definition str (k : scalar) : string :=
  match k with
  | SNone => "None"
  | SBool true => "True"
  | SBool false => "False"
  | SInt z => NilZero.string_of_int (Z.to_int z)
  | SFloat repr => repr
  | SStr s => s
  end.

(** [sep.join(l)] *)
Fixpoint join (sep : string) (l : list string) : string :=
  match l with
  | [] => ""
  | [x] => x
  | x :: rest => (x ++ sep ++ join sep rest)%string
  end.

(** [repr(l)] for a list of plain field names. *)
Definition repr_fields (l : list string) : string :=
  ("[" ++ join ", " (map (fun f => "'" ++ f ++ "'") l) ++ "]")%string.

(** [re.findall(pat, s)] for a literal, non-empty pattern: the matches from
    left to right, the scan resuming after the end of each match. *)
Fixpoint findall_from (pat s : string) (skip : nat) : list string :=
  match s with
  | EmptyString => []
  | String _ s' =>
      match skip with
      | S k => findall_from pat s' k
      | O =>
          if prefix pat s
          then pat :: findall_from pat s' (String.length pat - 1)
          else findall_from pat s' 0
      end
  end.

Definition findall (pat s : string) : list string := findall_from pat s 0.

Definition nl : string := String "010" EmptyString.

(** The two regular expressions of checks 1 and 2, both literal. *)
Definition re_operationID : string := "operationID:".
Definition re_Parameters : string := (nl ++ "  Parameters:")%string.

Definition truthy {A} (l : list A) : bool :=
  match l with
  | [] => false
  | _ :: _ => true
  end.

(** ** Console transcript *)

Inductive line : Type :=
| PValidating
| PFile (spec_path : string)
| PYamlParsingError (e : string)
| PFileNotFound (spec_path : string)
| PYamlValid
| PChecking (check : nat)
| PCasingOk (check : nat)
| PAllHaveOperationId (total_endpoints : nat)
| PAllHaveUserId (n : nat)
| PSchemaMissing (schema : string)
| PSchemasOk
| PSummaryBanner
| PFailedCount (n : nat)
| PWarningCount (n : nat)
| PNumbered (i : nat) (message : string)
| PSuccess
| PEndpointsValidated (total_endpoints : nat)
| POpenAPIVersion (v : yaml)
| PAPIVersion (v : yaml)
| PPassedWithWarnings
| PFailed.

(** ** Statements *)

Record state : Type := mkState {
  errors : list string;
  warnings : list string;
  stdout : list line
}.

Definition M (A : Type) : Type := state -> outcome A * state.

Definition ret {A} (a : A) : M A := fun s => (Return a, s).

Definition bind {A B} (m : M A) (k : A -> M B) : M B :=
  fun s =>
    match m s with
    | (Return a, s') => k a s'
    | (Raise e, s') => (Raise e, s')
    end.

Definition eval {A} (o : outcome A) : M A := fun s => (o, s).

Declare Scope stmt_scope.
Delimit Scope stmt_scope with stmt.
Notation "x <- m ;; k" := (bind m (fun x => k))
  (at level 61, m at next level, right associativity) : stmt_scope.
Notation "m ;; k" := (bind m (fun _ => k))
  (at level 61, right associativity) : stmt_scope.
Open Scope stmt_scope.

Definition print (l : line) : M unit :=
  fun s => (Return tt, mkState (errors s) (warnings s) (stdout s ++ [l])).

Definition new_errors : M unit :=
  fun s => (Return tt, mkState [] (warnings s) (stdout s)).

Definition new_warnings : M unit :=
  fun s => (Return tt, mkState (errors s) [] (stdout s)).

Definition errors_append (msg : string) : M unit :=
  fun s => (Return tt, mkState (errors s ++ [msg]) (warnings s) (stdout s)).

Definition warnings_append (msg : string) : M unit :=
  fun s => (Return tt, mkState (errors s) (warnings s ++ [msg]) (stdout s)).

Definition read_errors : M (list string) := fun s => (Return (errors s), s).
Definition read_warnings : M (list string) := fun s => (Return (warnings s), s).

Fixpoint for_each {A} (l : list A) (body : A -> M unit) : M unit :=
  match l with
  | [] => ret tt
  | x :: rest => body x ;; for_each rest body
  end.

Definition when (b : bool) (m : M unit) : M unit := if b then m else ret tt.

(** A [for] loop whose body only updates local variables [acc]. *)
Fixpoint for_acc {A B} (l : list A) (acc : B) (body : B -> A -> outcome B)
  : outcome B :=
  match l with
  | [] => Return acc
  | x :: rest => obind (body acc x) (fun acc' => for_acc rest acc' body)
  end.

(** ** Check 1 (lines 37-43) and check 2 (lines 45-51) *)

Definition msg_operationID (n : nat) : string :=
  ("Found " ++ str_of_nat n
   ++ " instances of incorrect 'operationID:' (should be 'operationId:')")%string.

Definition msg_Parameters (n : nat) : string :=
  ("Found " ++ str_of_nat n
   ++ " instances of incorrect 'Parameters:' (should be 'parameters:')")%string.

Definition check_1 (content : string) : M unit :=
  print (PChecking 1) ;;
  let incorrect_operation_id := findall re_operationID content in
  if truthy incorrect_operation_id
  then errors_append (msg_operationID (List.length incorrect_operation_id))
  else print (PCasingOk 1).

Definition check_2 (content : string) : M unit :=
  print (PChecking 2) ;;
  let incorrect_params := findall re_Parameters content in
  if truthy incorrect_params
  then errors_append (msg_Parameters (List.length incorrect_params))
  else print (PCasingOk 2).

(** ** Check 3 (lines 53-67): every endpoint has an operationId *)

Definition check_3_method (path : scalar) (acc : list string * nat)
  (entry : scalar * yaml) : outcome (list string * nat) :=
  let '(method, details) := entry in
  let '(paths_without_op, total_endpoints) := acc in
  if negb (scalar_is "parameters" method) && isinstance_dict details then
    let total_endpoints := S total_endpoints in
    (has_id <~ contains details "operationId" ;
     if negb has_id
     then (m <~ key_upper method ;
           Return (paths_without_op ++ [(m ++ " " ++ str path)%string], total_endpoints))
     else Return (paths_without_op, total_endpoints))%py
  else Return acc.

Definition check_3_path (acc : list string * nat) (entry : scalar * yaml)
  : outcome (list string * nat) :=
  let '(path, methods) := entry in
  (ms <~ items methods ;
   for_acc ms acc (check_3_method path))%py.

Definition check_3_loop (spec : yaml) : outcome (list string * nat) :=
  (paths <~ subscript spec "paths" ;
   ps <~ items paths ;
   for_acc ps ([], 0) check_3_path)%py.

Definition msg_without_op (paths_without_op : list string) : string :=
  ("Found " ++ str_of_nat (List.length paths_without_op)
   ++ " endpoints without operationId: " ++ join ", " paths_without_op)%string.

Definition check_3 (spec : yaml) : M nat :=
  print (PChecking 3) ;;
  r <- eval (check_3_loop spec) ;;
  let '(paths_without_op, total_endpoints) := r in
  (if truthy paths_without_op
   then errors_append (msg_without_op paths_without_op)
   else print (PAllHaveOperationId total_endpoints)) ;;
  ret total_endpoints.

(** ** Check 4 (lines 69-89): user endpoints document [userId] *)

Definition user_endpoints : list (string * string) :=
  [ ("get", "/user/{userId}");
    ("delete", "/user/{userId}");
    ("get", "/user/{userId}/points");
    ("post", "/user/{userId}/points") ].

(** [p.get('name') == 'userId'], for [p] that passed [isinstance(p, dict)]. *)
Definition names_userId (p : yaml) : bool :=
  match p with
  | YDict d =>
      match dict_get d "name" with
      | Some v => value_is "userId" v
      | None => false
      end
  | _ => false
  end.

Definition has_userId (spec : yaml) (method path : string) : outcome bool :=
  (paths <~ subscript spec "paths" ;
   methods <~ get paths path (YDict []) ;
   endpoint_details <~ get methods method (YDict []) ;
   params <~ get endpoint_details "parameters" (YList []) ;
   ps <~ iter params ;
   Return (existsb names_userId (filter isinstance_dict ps)))%py.

Definition check_4_endpoint (spec : yaml) (missing_params : list string)
  (endpoint : string * string) : outcome (list string) :=
  let '(method, path) := endpoint in
  (found <~ has_userId spec method path ;
   if negb found
   then Return (missing_params ++ [(upper method ++ " " ++ path)%string])
   else Return missing_params)%py.

Definition check_4_loop (spec : yaml) : outcome (list string) :=
  for_acc user_endpoints [] (check_4_endpoint spec).

Definition msg_missing_params (missing_params : list string) : string :=
  ("Found " ++ str_of_nat (List.length missing_params)
   ++ " user endpoints missing userId parameter: " ++ join ", " missing_params)%string.

Definition check_4 (spec : yaml) : M unit :=
  print (PChecking 4) ;;
  missing_params <- eval (check_4_loop spec) ;;
  if truthy missing_params
  then errors_append (msg_missing_params missing_params)
  else print (PAllHaveUserId (List.length user_endpoints)).

(** ** Check 5 (lines 91-116): response schemas list their required fields *)

Definition responses_to_check : list (string * string * string * list string) :=
  [ ("GET", "/products", "200", ["products"; "total"; "limit"]);
    ("GET", "/orders", "200", ["orders"; "total"]);
    ("GET", "/user/{userId}/points", "200", ["loyaltyPoints"]);
    ("POST", "/user/{userId}/points", "200", ["remainingPoints"]) ].

(** Lines 102-105: the navigation down to [schema.required]. *)
Definition declared_required (spec : yaml) (method path status : string)
  : outcome yaml :=
  (paths <~ subscript spec "paths" ;
   methods <~ get paths path (YDict []) ;
   endpoint <~ get methods (lower method) (YDict []) ;
   responses <~ get endpoint "responses" (YDict []) ;
   response <~ get responses status (YDict []) ;
   content <~ get response "content" (YDict []) ;
   media <~ get content "application/json" (YDict []) ;
   schema <~ get media "schema" (YDict []) ;
   get schema "required" (YList []))%py.

(** Line 107: the fields of the baseline that [required] does not hold. *)
Fixpoint missing_fields (required : yaml) (expected_required : list string)
  : outcome (list string) :=
  match expected_required with
  | [] => Return []
  | field :: rest =>
      (present <~ contains required field ;
       more <~ missing_fields required rest ;
       Return (if negb present then field :: more else more))%py
  end.

Definition msg_schema (method path status : string) (missing : list string)
  : string :=
  (method ++ " " ++ path ++ " " ++ status ++ ": missing required fields "
   ++ repr_fields missing)%string.

Definition check_5_response (spec : yaml) (schemas_missing_required : list string)
  (t : string * string * string * list string) : outcome (list string) :=
  let '(method, path, status, expected_required) := t in
  (required <~ declared_required spec method path status ;
   missing <~ missing_fields required expected_required ;
   if truthy missing
   then Return (schemas_missing_required
                ++ [msg_schema method path status missing])
   else Return schemas_missing_required)%py.

Definition check_5_loop (spec : yaml) : outcome (list string) :=
  for_acc responses_to_check [] (check_5_response spec).

Definition msg_schemas (n : nat) : string :=
  ("Found " ++ str_of_nat n
   ++ " response schemas with potentially missing required fields")%string.

Definition check_5 (spec : yaml) : M unit :=
  print (PChecking 5) ;;
  schemas_missing_required <- eval (check_5_loop spec) ;;
  if truthy schemas_missing_required
  then warnings_append (msg_schemas (List.length schemas_missing_required)) ;;
       for_each schemas_missing_required (fun schema => print (PSchemaMissing schema))
  else print PSchemasOk.

(** ** Summary (lines 118-144) and the whole function *)

Fixpoint print_numbered (i : nat) (l : list string) : M unit :=
  match l with
  | [] => ret tt
  | x :: rest => print (PNumbered i x) ;; print_numbered (S i) rest
  end.

Definition summary (spec : yaml) (total_endpoints : nat) : M bool :=
  print PSummaryBanner ;;
  errs <- read_errors ;;
  when (truthy errs)
    (print (PFailedCount (List.length errs)) ;; print_numbered 1 errs) ;;
  warns <- read_warnings ;;
  when (truthy warns)
    (print (PWarningCount (List.length warns)) ;; print_numbered 1 warns) ;;
  if negb (truthy errs) && negb (truthy warns) then
    print PSuccess ;;
    print (PEndpointsValidated total_endpoints) ;;
    v <- eval (subscript spec "openapi") ;;
    print (POpenAPIVersion v) ;;
    v <- eval (info <~ subscript spec "info" ; subscript info "version")%py ;;
    print (PAPIVersion v) ;;
    ret true
  else if negb (truthy errs) then
    print PPassedWithWarnings ;;
    ret true
  else
    print PFailed ;;
    ret false.

(** Checks 1 to 5 in sequence: the rule engine. *)
Definition rule_engine (content : string) (spec : yaml) : M nat :=
  check_1 content ;;
  check_2 content ;;
  total_endpoints <- check_3 spec ;;
  check_4 spec ;;
  check_5 spec ;;
  ret total_endpoints.

Definition validate_openapi_spec (spec_path : string) (file : file_read) : M bool :=
  print PValidating ;;
  print (PFile spec_path) ;;
  new_errors ;;
  new_warnings ;;
  match file with
  | YAMLError e => print (PYamlParsingError e) ;; ret false
  | FileNotFound => print (PFileNotFound spec_path) ;; ret false
  | Loaded content spec =>
      print PYamlValid ;;
      total_endpoints <- rule_engine content spec ;;
      summary spec total_endpoints
  end.

Definition fresh : state := mkState [] [] [].

(** Lines 146-153.  The interpreter ends with status 1 when an exception
    reaches the top level. *)
Definition main (spec_path : string) (file : file_read) : Z :=
  match fst (validate_openapi_spec spec_path file fresh) with
  | Return success => if success then 0%Z else 1%Z
  | Raise _ => 1%Z
  end.

(** ** Occurrences of a pattern in a text *)

(** The number of positions of [s] at which [pat] starts. *)
Fixpoint occurrences (pat s : string) : nat :=
  match s with
  | EmptyString => 0
  | String _ s' => (if prefix pat s then 1 else 0) + occurrences pat s'
  end.

(** [pat] is a substring of [s]. *)
Definition occurs (pat s : string) : Prop :=
  exists pre post, s = (pre ++ pat ++ post)%string.

(** ** Document shapes, in the specification's words *)

(** A paths mapping whose values are mappings, given by its entries. *)
Definition paths_mapping (paths : list (scalar * list (scalar * yaml))) : yaml :=
  YDict (map (fun pm => (fst pm, YDict (snd pm))) paths).

(** An entry under a path that counts as an endpoint: its key is not
    "parameters" and its value is a mapping. *)
Definition is_endpoint (entry : scalar * yaml) : bool :=
  negb (scalar_is "parameters" (fst entry)) && isinstance_dict (snd entry).

Definition endpoint_count (paths : list (scalar * list (scalar * yaml))) : nat :=
  list_sum (map (fun pm => List.length (filter is_endpoint (snd pm))) paths).

(** An entry other than "parameters" is a mapping with an operationId. *)
Definition identified (entry : scalar * yaml) : bool :=
  scalar_is "parameters" (fst entry) ||
  match snd entry with
  | YDict d =>
      match dict_get d "operationId" with
      | Some _ => true
      | None => false
      end
  | _ => false
  end.

Definition all_identified (paths : list (scalar * list (scalar * yaml))) : bool :=
  forallb (fun pm => forallb identified (snd pm)) paths.

(** [op] is the mapping found at [paths[path][method]]. *)
Definition operation_at (spec : yaml) (method path : string)
  (op : list (scalar * yaml)) : Prop :=
  exists top paths methods,
    spec = YDict top /\
    dict_get top "paths" = Some (YDict paths) /\
    dict_get paths path = Some (YDict methods) /\
    dict_get methods method = Some (YDict op).

(** The endpoint has a parameters sequence with a mapping entry named
    "userId". *)
Definition documents_userId (spec : yaml) (method path : string) : Prop :=
  exists op params p,
    operation_at spec method path op /\
    dict_get op "parameters" = Some (YList params) /\
    In (YDict p) params /\
    dict_get p "name" = Some (YStr "userId").

(** The endpoint is not in the document: its path is absent from the paths
    mapping, or its method is absent under that path. *)
Definition absent_endpoint (spec : yaml) (method path : string) : Prop :=
  exists top paths,
    spec = YDict top /\
    dict_get top "paths" = Some (YDict paths) /\
    (dict_get paths path = None \/
     exists methods,
       dict_get paths path = Some (YDict methods) /\
       dict_get methods method = None).

(** [required] is the sequence declared at
    [paths[path][method].responses[status].content["application/json"].schema.required]. *)
Definition declares_required (spec : yaml) (method path status : string)
  (required : list yaml) : Prop :=
  exists op responses response content media schema,
    operation_at spec method path op /\
    dict_get op "responses" = Some (YDict responses) /\
    dict_get responses status = Some (YDict response) /\
    dict_get response "content" = Some (YDict content) /\
    dict_get content "application/json" = Some (YDict media) /\
    dict_get media "schema" = Some (YDict schema) /\
    dict_get schema "required" = Some (YList required).

(** The expected-minus-declared difference of one response tuple, and the
    number of tuples for which it is non-empty. *)
Definition difference (spec : yaml) (t : string * string * string * list string)
  : outcome (list string) :=
  let '(method, path, status, expected_required) := t in
  (required <~ declared_required spec method path status ;
   missing_fields required expected_required)%py.

Definition has_difference (spec : yaml)
  (t : string * string * string * list string) : bool :=
  match difference spec t with
  | Return (_ :: _) => true
  | _ => false
  end.

Definition differing (spec : yaml) : nat :=
  List.length (filter (has_difference spec) responses_to_check).

(** The label under which check 4 reports an endpoint. *)
Definition endpoint_label (endpoint : string * string) : string :=
  (upper (fst endpoint) ++ " " ++ snd endpoint)%string.

Definition lacks_userId (spec : yaml) (endpoint : string * string) : bool :=
  match has_userId spec (fst endpoint) (snd endpoint) with
  | Return true => false
  | _ => true
  end.

(** *** Shapes of nodes *)

Definition is_str (k : scalar) : bool :=
  match k with
  | SStr _ => true
  | _ => false
  end.


(** ** Predicates on statements *)

(** [m] only writes to the console. *)
Definition prints_only (m : M unit) : Prop :=
  forall s, exists out,
    m s = (Return tt, mkState (errors s) (warnings s) (stdout s ++ out)).

(** Two states hold the same findings. *)
Definition same_findings (s t : state) : Prop :=
  errors s = errors t /\ warnings s = warnings t.

(** The outcome and the findings of [m] depend on the findings it starts
    from only, not on what the console already shows. *)
Definition console_blind {A} (m : M A) : Prop :=
  forall s t, same_findings s t ->
    fst (m s) = fst (m t) /\ same_findings (snd (m s)) (snd (m t)).

(** What [summary] returns, from the findings it is entered with. *)
Definition summary_outcome (spec : yaml) (errs warns : list string) : outcome bool :=
  if negb (truthy errs) && negb (truthy warns) then
    (_ <~ subscript spec "openapi" ;
     info <~ subscript spec "info" ;
     _ <~ subscript info "version" ;
     Return true)%py
  else Return (negb (truthy errs)).

(** Whatever its outcome, [m] leaves finding lists that extend the ones it
    started from, by at most [ne] errors and [nw] warnings. *)
Definition appends {A} (ne nw : nat) (m : M A) : Prop :=
  forall s, exists e w,
    errors (snd (m s)) = errors s ++ e /\
    warnings (snd (m s)) = warnings s ++ w /\
    List.length e <= ne /\ List.length w <= nw.

(** ** Sample documents *)

Definition lines (l : list string) : string :=
  String.concat "" (map (fun x => (x ++ nl)%string) l).






(** A user endpoint with an operationId and nothing else. *)
Definition no_parameters : yaml :=
  YDict [(SStr "paths",
          YDict [(SStr "/user/{userId}",
                  YDict [(SStr "get",
                          YDict [(SStr "operationId", YStr "getUser")])])])].

(** An empty paths mapping. *)
Definition bare_text : string := lines ["paths: {}"].
Definition bare : yaml := YDict [(SStr "paths", YDict [])].

(** The text of scenario A. *)
Definition scenario_A_text : string := lines ["operationID: getUser"].
Definition scenario_A : yaml := YDict [(SStr "operationID", YStr "getUser")].

Definition userId_parameter : yaml :=
  YDict [(SStr "name", YStr "userId"); (SStr "in", YStr "path");
         (SStr "required", YScalar (SBool true))].

Definition operation (operationId : string) (parameters : list yaml)
  (required : list string) : yaml :=
  YDict
    [(SStr "operationId", YStr operationId);
     (SStr "parameters", YList parameters);
     (SStr "responses",
      YDict
        [(SStr "200",
          YDict
            [(SStr "content",
              YDict
                [(SStr "application/json",
                  YDict
                    [(SStr "schema",
                      YDict [(SStr "required", YList (map YStr required))])])])])])].

Definition document (paths : list (scalar * list (scalar * yaml))) : yaml :=
  YDict [(SStr "openapi", YStr "3.0.0");
         (SStr "info", YDict [(SStr "version", YStr "1.0.0")]);
         (SStr "paths", paths_mapping paths)].

Definition user_paths : list (scalar * list (scalar * yaml)) :=
  [ (SStr "/orders",
     [(SStr "get", operation "listOrders" [] ["orders"; "total"])]);
    (SStr "/user/{userId}",
     [(SStr "get", operation "getUser" [userId_parameter] []);
      (SStr "delete", operation "deleteUser" [userId_parameter] [])]);
    (SStr "/user/{userId}/points",
     [(SStr "parameters", YList []);
      (SStr "get", operation "getPoints" [userId_parameter] ["loyaltyPoints"]);
      (SStr "post",
       operation "redeemPoints" [userId_parameter] ["remainingPoints"])]) ].

(** Scenario C: every check passes. *)
Definition scenario_C_paths : list (scalar * list (scalar * yaml)) :=
  (SStr "/products",
   [(SStr "get", operation "listProducts" [] ["products"; "total"; "limit"])])
  :: user_paths.
Definition scenario_C : yaml := document scenario_C_paths.

(** Scenario D: as scenario C, but GET /products 200 does not require "total". *)
Definition scenario_D : yaml :=
  document
    ((SStr "/products",
      [(SStr "get", operation "listProducts" [] ["products"; "limit"])])
     :: user_paths).

(** The text these documents are parsed from. *)
Definition operation_lines (method operationId : string) (userId : bool)
  (required : string) : list string :=
  [ ("    " ++ method ++ ":")%string;
    ("      operationId: " ++ operationId)%string;
    ("      parameters: "
     ++ (if userId then "[{name: userId, in: path, required: true}]" else "[]"))%string;
    "      responses:";
    "        '200':";
    "          content:";
    "            application/json:";
    "              schema:";
    ("                required: " ++ required)%string ].

Definition user_paths_lines : list string :=
  ["  /orders:"]
  ++ operation_lines "get" "listOrders" false "[orders, total]"
  ++ ["  /user/{userId}:"]
  ++ operation_lines "get" "getUser" true "[]"
  ++ operation_lines "delete" "deleteUser" true "[]"
  ++ ["  /user/{userId}/points:"; "    parameters: []"]
  ++ operation_lines "get" "getPoints" true "[loyaltyPoints]"
  ++ operation_lines "post" "redeemPoints" true "[remainingPoints]".

Definition info_lines : list string := ["info:"; "  version: 1.0.0"; "paths:"].

Definition scenario_C_lines : list string :=
  info_lines ++ ["  /products:"]
  ++ operation_lines "get" "listProducts" false "[products, total, limit]"
  ++ user_paths_lines.

Definition scenario_C_text : string := lines ("openapi: 3.0.0" :: scenario_C_lines).

Definition scenario_D_text : string :=
  lines
    (("openapi: 3.0.0" :: info_lines) ++ ["  /products:"]
     ++ operation_lines "get" "listProducts" false "[products, limit]"
     ++ user_paths_lines).

Definition unversioned_text : string := lines scenario_C_lines.

(** Scenario C without the "openapi" key. *)
Definition unversioned : yaml :=
  YDict [(SStr "info", YDict [(SStr "version", YStr "1.0.0")]);
         (SStr "paths", paths_mapping scenario_C_paths)].

(** ** Further notions used by the properties *)

(** [s] without its first [n] characters. *)
Fixpoint drop (n : nat) (s : string) : string :=
  match n, s with
  | O, _ => s
  | S _, EmptyString => EmptyString
  | S k, String _ s' => drop k s'
  end.

(** No proper, non-empty suffix of [pat] is also a prefix of [pat]: two
    occurrences of [pat] in a text cannot overlap. *)
Definition unbordered (pat : string) : bool :=
  forallb (fun j => negb (prefix (drop j pat) pat))
    (seq 1 (String.length pat - 1)).

Definition has_operationId (details : yaml) : bool :=
  match details with
  | YDict d =>
      match dict_get d "operationId" with
      | Some _ => true
      | None => false
      end
  | _ => false
  end.

(** An entry under a path that counts as an endpoint and has no operationId. *)
Definition unidentified (entry : scalar * yaml) : bool :=
  is_endpoint entry && negb (has_operationId (snd entry)).

Definition unidentified_count (paths : list (scalar * list (scalar * yaml))) : nat :=
  list_sum (map (fun pm => List.length (filter unidentified (snd pm))) paths).

(** The entries of a path whose method keys are all strings. *)
Definition key_entries (methods : list (string * yaml)) : list (scalar * yaml) :=
  map (fun e => (SStr (fst e), snd e)) methods.

Definition keyed (paths : list (scalar * list (string * yaml)))
  : list (scalar * list (scalar * yaml)) :=
  map (fun pm => (fst pm, key_entries (snd pm))) paths.

(** The labels [METHOD path] of the endpoints without operationId, in the
    order of the document. *)
Definition flagged_under (path : scalar) (methods : list (string * yaml))
  : list string :=
  map (fun e => (upper (fst e) ++ " " ++ str path)%string)
    (filter (fun e => unidentified (SStr (fst e), snd e)) methods).

Definition flagged (paths : list (scalar * list (string * yaml))) : list string :=
  flat_map (fun pm => flagged_under (fst pm) (snd pm)) paths.

(** The lines [print_numbered i l] writes. *)
Fixpoint numbered (i : nat) (l : list string) : list line :=
  match l with
  | [] => []
  | x :: rest => PNumbered i x :: numbered (S i) rest
  end.

(** The block the summary writes for one collection: nothing when it is
    empty, otherwise its size and then its findings, numbered from 1. *)
Definition report (count : nat -> line) (l : list string) : list line :=
  if truthy l then count (List.length l) :: numbered 1 l else [].

(** The closing lines of the summary. *)
Definition verdict_lines (spec : yaml) (total_endpoints : nat)
  (errs warns : list string) : list line :=
  if negb (truthy errs) && negb (truthy warns) then
    PSuccess :: PEndpointsValidated total_endpoints ::
    match subscript spec "openapi" with
    | Return v =>
        POpenAPIVersion v ::
        match (info <~ subscript spec "info" ; subscript info "version")%py with
        | Return v' => [PAPIVersion v']
        | Raise _ => []
        end
    | Raise _ => []
    end
  else if negb (truthy errs) then [PPassedWithWarnings]
  else [PFailed].

(** The document has an "openapi" field and an "info" mapping with a
    "version" field. *)
Definition versions_present (spec : yaml) : bool :=
  match spec with
  | YDict top =>
      match dict_get top "openapi", dict_get top "info" with
      | Some _, Some (YDict info) =>
          match dict_get info "version" with
          | Some _ => true
          | None => false
          end
      | _, _ => false
      end
  | _ => false
  end.

(** The error a casing check appends for the matches it found. *)
Definition casing_error (msg : nat -> string) (matches : list string)
  : list string :=
  if truthy matches then [msg (List.length matches)] else [].

(** The keys check 5 follows from the paths mapping down to the schema. *)
Definition response_keys (method path status : string) : list string :=
  [path; lower method; "responses"; status; "content"; "application/json";
   "schema"].

(** [v.get(k1, {}).get(k2, {})...] along [keys]. *)
Fixpoint descend (keys : list string) (v : yaml) : outcome yaml :=
  match keys with
  | [] => Return v
  | k :: rest => obind (get v k (YDict [])) (descend rest)
  end.

(** Every character of [s] is an ASCII character. *)
Fixpoint is_ascii (s : string) : bool :=
  match s with
  | EmptyString => true
  | String c s' => (nat_of_ascii c <? 128)%nat && is_ascii s'
  end.

Definition ascii_keys (paths : list (scalar * list (string * yaml))) : bool :=
  forallb (fun pm => forallb (fun e => is_ascii (fst e)) (snd pm)) paths.

(** *** Documents on which the rule engine completes *)









(** *** Further sample documents *)

(** One path with a path-level "parameters" entry, an operation without an
    operationId and an operation with one. *)
Definition half_identified : list (scalar * list (string * yaml)) :=
  [ (SStr "/ping",
     [("parameters", YList []);
      ("get", YDict [(SStr "summary", YStr "Ping")]);
      ("post", YDict [(SStr "operationId", YStr "postPing")])]) ].

(** One path with a scalar entry, and an operation under an integer key. *)
Definition mixed_entries : list (scalar * list (scalar * yaml)) :=
  [ (SStr "/ping",
     [(SStr "summary", YStr "Ping");
      (SInt 404, YDict [(SStr "operationId", YStr "notFound")])]) ].

(** A user endpoint whose "parameters" is null. *)
Definition null_parameters : yaml :=
  YDict [(SStr "paths",
          YDict [(SStr "/user/{userId}",
                  YDict [(SStr "get",
                          YDict [(SStr "operationId", YStr "getUser");
                                 (SStr "parameters", YScalar SNone)])])])].

(** GET /orders with an operationId and no "responses". *)
Definition no_responses : yaml :=
  YDict [(SStr "paths",
          YDict [(SStr "/orders",
                  YDict [(SStr "get",
                          YDict [(SStr "operationId", YStr "listOrders")])])])].


(** * Properties *)

(** ** Text scanning *)

Lemma prefix_split (pat s : string) :
  prefix pat s = true <-> exists post, s = (pat ++ post)%string.
Proof.
  revert s; induction pat as [|c pat IH]; intros s; simpl.
  - split; [intros _; exists s; reflexivity | intros _; now destruct s].
  - destruct s as [|c' s]; simpl.
    + split; [discriminate | intros [post H]; discriminate].
    + destruct (Ascii.ascii_dec c c') as [->|Hne].
      * rewrite IH; split; intros [post H]; exists post.
        -- now rewrite H.
        -- now inversion H.
      * split; [discriminate | intros [post H]; inversion H; congruence].
Qed.

Lemma occurrences_zero (pat s : string) :
  pat <> EmptyString -> (occurrences pat s = 0 <-> ~ occurs pat s).
Proof.
  intros Hpat; induction s as [|c s IH]; cbn [occurrences].
  - split; [|reflexivity].
    intros _ [pre [post H]].
    destruct pre; [destruct pat|]; simpl in H; congruence.
  - split.
    + intros H [pre [post E]].
      destruct (prefix pat (String c s)) eqn:Hp; [simpl in H; discriminate|].
      simpl in H. destruct pre as [|c' pre]; simpl in E.
      * assert (prefix pat (String c s) = true) by (apply prefix_split; eauto).
        congruence.
      * inversion E; subst. apply IH in H. apply H. now exists pre, post.
    + intros H.
      destruct (prefix pat (String c s)) eqn:Hp.
      * exfalso; apply H. apply prefix_split in Hp as [post E].
        exists EmptyString, post. exact E.
      * simpl. apply IH. intros [pre [post E]]. apply H.
        exists (String c pre), post. simpl. now rewrite E.
Qed.

Lemma findall_from_none (pat s : string) (skip : nat) :
  occurrences pat s = 0 -> findall_from pat s skip = [].
Proof.
  revert skip; induction s as [|c s IH]; intros skip H; [reflexivity|].
  cbn [occurrences] in H.
  destruct (prefix pat (String c s)) eqn:Hp; [simpl in H; discriminate|].
  simpl in H. cbn [findall_from]. rewrite Hp.
  destruct skip; now apply IH.
Qed.

Lemma findall_from_le (pat s : string) (skip : nat) :
  List.length (findall_from pat s skip) <= occurrences pat s.
Proof.
  revert skip; induction s as [|c s IH]; intros skip; [apply Nat.le_refl|].
  cbn [findall_from occurrences].
  destruct skip as [|k].
  - destruct (prefix pat (String c s)); simpl.
    + apply le_n_S, IH.
    + apply IH.
  - specialize (IH k). lia.
Qed.

Lemma findall_some (pat s : string) :
  1 <= occurrences pat s -> findall pat s <> [].
Proof.
  unfold findall; induction s as [|c s IH]; cbn [occurrences findall_from]; [lia|].
  destruct (prefix pat (String c s)); simpl; [discriminate|exact IH].
Qed.

Lemma findall_none (pat s : string) :
  occurrences pat s = 0 -> findall pat s = [].
Proof. apply findall_from_none. Qed.

Lemma findall_single (pat s : string) :
  occurrences pat s = 1 -> List.length (findall pat s) = 1.
Proof.
  intros H.
  pose proof (findall_from_le pat s 0) as Hle.
  assert (Hne : findall pat s <> []) by (apply findall_some; lia).
  unfold findall in *. destruct (findall_from pat s 0); [congruence|].
  simpl in *. lia.
Qed.

(** ** How statements touch the two finding lists *)

Lemma appends_mono {A} (m : M A) ne nw ne' nw' :
  appends ne nw m -> ne <= ne' -> nw <= nw' -> appends ne' nw' m.
Proof.
  intros H He Hw s. destruct (H s) as (e & w & E1 & E2 & L1 & L2).
  exists e, w. repeat split; auto; lia.
Qed.

Lemma appends_nothing {A} (m : M A) :
  (forall s, errors (snd (m s)) = errors s /\ warnings (snd (m s)) = warnings s) ->
  appends 0 0 m.
Proof.
  intros H s. destruct (H s) as [E W]. exists [], [].
  rewrite !app_nil_r. auto.
Qed.

Lemma appends_ret {A} (a : A) : appends 0 0 (ret a).
Proof. now apply appends_nothing. Qed.

Lemma appends_eval {A} (o : outcome A) : appends 0 0 (eval o).
Proof. now apply appends_nothing. Qed.

Lemma appends_print (l : line) : appends 0 0 (print l).
Proof. now apply appends_nothing. Qed.

Lemma appends_read_errors : appends 0 0 read_errors.
Proof. now apply appends_nothing. Qed.

Lemma appends_read_warnings : appends 0 0 read_warnings.
Proof. now apply appends_nothing. Qed.

Lemma appends_errors_append (msg : string) : appends 1 0 (errors_append msg).
Proof.
  intros s. exists [msg], []. simpl. rewrite app_nil_r. auto.
Qed.

Lemma appends_warnings_append (msg : string) : appends 0 1 (warnings_append msg).
Proof.
  intros s. exists [], [msg]. simpl. rewrite app_nil_r. auto.
Qed.

Lemma appends_bind {A B} (m : M A) (k : A -> M B) ne1 nw1 ne2 nw2 :
  appends ne1 nw1 m -> (forall a, appends ne2 nw2 (k a)) ->
  appends (ne1 + ne2) (nw1 + nw2) (bind m k).
Proof.
  intros Hm Hk s. unfold bind.
  destruct (Hm s) as (e1 & w1 & E1 & W1 & Le1 & Lw1).
  destruct (m s) as [[a|x] s1]; simpl in *.
  - destruct (Hk a s1) as (e2 & w2 & E2 & W2 & Le2 & Lw2).
    exists (e1 ++ e2), (w1 ++ w2).
    rewrite E2, W2, E1, W1, !app_assoc, !length_app. repeat split; lia.
  - exists e1, w1. repeat split; auto; lia.
Qed.

Lemma appends_seq0 {A B} (m : M A) (k : A -> M B) ne nw :
  appends 0 0 m -> (forall a, appends ne nw (k a)) -> appends ne nw (bind m k).
Proof. intros Hm Hk. exact (appends_bind m k 0 0 ne nw Hm Hk). Qed.

Lemma appends_when (b : bool) (m : M unit) ne nw :
  appends ne nw m -> appends ne nw (when b m).
Proof.
  intros H. destruct b; simpl; [exact H|].
  eapply appends_mono; [apply appends_ret | lia | lia].
Qed.

Lemma appends_for_each_print {A} (l : list A) (f : A -> line) :
  appends 0 0 (for_each l (fun x => print (f x))).
Proof.
  induction l as [|x l IH]; simpl.
  - apply appends_ret.
  - apply appends_seq0; [apply appends_print | intros _; exact IH].
Qed.

Lemma appends_print_numbered (l : list string) (i : nat) :
  appends 0 0 (print_numbered i l).
Proof.
  revert i; induction l as [|x l IH]; intros i; simpl.
  - apply appends_ret.
  - apply appends_seq0; [apply appends_print | intros _; apply IH].
Qed.

Create HintDb findings.
#[local] Hint Resolve appends_ret appends_eval appends_print appends_read_errors
  appends_read_warnings appends_errors_append appends_warnings_append
  appends_when appends_for_each_print appends_print_numbered : findings.

Ltac quiet := eapply appends_mono; [eauto with findings | lia | lia].

Lemma check_1_appends (content : string) : appends 1 0 (check_1 content).
Proof.
  unfold check_1. apply appends_seq0; [quiet|]. intros _.
  destruct (truthy _); quiet.
Qed.

Lemma check_2_appends (content : string) : appends 1 0 (check_2 content).
Proof.
  unfold check_2. apply appends_seq0; [quiet|]. intros _.
  destruct (truthy _); quiet.
Qed.

Lemma check_3_appends (spec : yaml) : appends 1 0 (check_3 spec).
Proof.
  unfold check_3. apply appends_seq0; [quiet|]. intros _.
  apply appends_seq0; [quiet|]. intros [paths_without_op total_endpoints].
  apply (appends_bind _ _ 1 0 0 0); [|intros; quiet].
  destruct (truthy _); quiet.
Qed.

Lemma check_4_appends (spec : yaml) : appends 1 0 (check_4 spec).
Proof.
  unfold check_4. apply appends_seq0; [quiet|]. intros _.
  apply appends_seq0; [quiet|]. intros missing_params.
  destruct (truthy _); quiet.
Qed.

Lemma check_5_appends (spec : yaml) : appends 0 1 (check_5 spec).
Proof.
  unfold check_5. apply appends_seq0; [quiet|]. intros _.
  apply appends_seq0; [quiet|]. intros schemas.
  destruct (truthy _); [|quiet].
  apply (appends_bind _ _ 0 1 0 0); [quiet | intros; quiet].
Qed.

Lemma checks_2_to_5_append (content : string) (spec : yaml) :
  appends 3 1
    (check_2 content ;;
     total_endpoints <- check_3 spec ;;
     check_4 spec ;;
     check_5 spec ;;
     ret total_endpoints).
Proof.
  apply (appends_bind _ _ 1 0 2 1); [apply check_2_appends|]. intros _.
  apply (appends_bind _ _ 1 0 1 1); [apply check_3_appends|]. intros total.
  apply (appends_bind _ _ 1 0 0 1); [apply check_4_appends|]. intros _.
  apply (appends_bind _ _ 0 1 0 0); [apply check_5_appends|]. intros _.
  apply appends_ret.
Qed.

Lemma rule_engine_appends (content : string) (spec : yaml) :
  appends 4 1 (rule_engine content spec).
Proof.
  unfold rule_engine.
  apply (appends_bind _ _ 1 0 3 1); [apply check_1_appends|]. intros _.
  apply (appends_bind _ _ 1 0 2 1); [apply check_2_appends|]. intros _.
  apply (appends_bind _ _ 1 0 1 1); [apply check_3_appends|]. intros total.
  apply (appends_bind _ _ 1 0 0 1); [apply check_4_appends|]. intros _.
  apply (appends_bind _ _ 0 1 0 0); [apply check_5_appends|]. intros _.
  apply appends_ret.
Qed.

Lemma summary_appends (spec : yaml) (total_endpoints : nat) :
  appends 0 0 (summary spec total_endpoints).
Proof.
  unfold summary.
  apply appends_seq0; [quiet|]. intros _.
  apply appends_seq0; [quiet|]. intros errs.
  apply appends_seq0.
  { apply appends_when. apply appends_seq0; [quiet | intros; quiet]. }
  intros _.
  apply appends_seq0; [quiet|]. intros warns.
  apply appends_seq0.
  { apply appends_when. apply appends_seq0; [quiet | intros; quiet]. }
  intros _.
  destruct (negb (truthy errs) && negb (truthy warns)).
  - repeat (apply appends_seq0; [quiet | intros ?]). quiet.
  - destruct (negb (truthy errs)); apply appends_seq0; try quiet; intros; quiet.
Qed.

(** ** What each check does to the state *)

Lemma check_1_run (content : string) (s : state) :
  check_1 content s =
  (Return tt,
   match findall re_operationID content with
   | [] => mkState (errors s) (warnings s)
             ((stdout s ++ [PChecking 1]) ++ [PCasingOk 1])
   | m :: ms => mkState (errors s ++ [msg_operationID (List.length (m :: ms))])
                  (warnings s) (stdout s ++ [PChecking 1])
   end).
Proof.
  unfold check_1; cbv zeta.
  destruct (findall re_operationID content); reflexivity.
Qed.

Lemma check_2_run (content : string) (s : state) :
  check_2 content s =
  (Return tt,
   match findall re_Parameters content with
   | [] => mkState (errors s) (warnings s)
             ((stdout s ++ [PChecking 2]) ++ [PCasingOk 2])
   | m :: ms => mkState (errors s ++ [msg_Parameters (List.length (m :: ms))])
                  (warnings s) (stdout s ++ [PChecking 2])
   end).
Proof.
  unfold check_2; cbv zeta.
  destruct (findall re_Parameters content); reflexivity.
Qed.

Lemma check_3_run (spec : yaml) (s : state) :
  check_3 spec s =
  match check_3_loop spec with
  | Return ([], total_endpoints) =>
      (Return total_endpoints,
       mkState (errors s) (warnings s)
         ((stdout s ++ [PChecking 3]) ++ [PAllHaveOperationId total_endpoints]))
  | Return (p :: ps, total_endpoints) =>
      (Return total_endpoints,
       mkState (errors s ++ [msg_without_op (p :: ps)]) (warnings s)
         (stdout s ++ [PChecking 3]))
  | Raise e =>
      (Raise e, mkState (errors s) (warnings s) (stdout s ++ [PChecking 3]))
  end.
Proof.
  unfold check_3, bind, eval, print.
  destruct (check_3_loop spec) as [[[|p ps] total]|e]; reflexivity.
Qed.

Lemma check_4_run (spec : yaml) (s : state) :
  check_4 spec s =
  match check_4_loop spec with
  | Return [] =>
      (Return tt,
       mkState (errors s) (warnings s)
         ((stdout s ++ [PChecking 4]) ++ [PAllHaveUserId 4]))
  | Return (m :: ms) =>
      (Return tt,
       mkState (errors s ++ [msg_missing_params (m :: ms)]) (warnings s)
         (stdout s ++ [PChecking 4]))
  | Raise e =>
      (Raise e, mkState (errors s) (warnings s) (stdout s ++ [PChecking 4]))
  end.
Proof.
  unfold check_4, bind, eval, print.
  destruct (check_4_loop spec) as [[|m ms]|e]; reflexivity.
Qed.

Lemma for_each_print_run {A} (l : list A) (f : A -> line) (s : state) :
  for_each l (fun x => print (f x)) s =
  (Return tt, mkState (errors s) (warnings s) (stdout s ++ map f l)).
Proof.
  revert s; induction l as [|x l IH]; intros s; simpl.
  - rewrite app_nil_r. now destruct s.
  - unfold bind, print at 1. rewrite IH. simpl. now rewrite <- app_assoc.
Qed.

Lemma check_5_run (spec : yaml) (s : state) :
  check_5 spec s =
  match check_5_loop spec with
  | Return [] =>
      (Return tt,
       mkState (errors s) (warnings s) ((stdout s ++ [PChecking 5]) ++ [PSchemasOk]))
  | Return (m :: ms) =>
      (Return tt,
       mkState (errors s)
         (warnings s ++ [msg_schemas (List.length (m :: ms))])
         ((stdout s ++ [PChecking 5]) ++ map PSchemaMissing (m :: ms)))
  | Raise e =>
      (Raise e, mkState (errors s) (warnings s) (stdout s ++ [PChecking 5]))
  end.
Proof.
  unfold check_5. unfold bind at 1. unfold print at 1. unfold bind at 1, eval.
  destruct (check_5_loop spec) as [[|m ms]|e]; try reflexivity.
  cbv beta iota. cbn [truthy]. unfold bind, warnings_append.
  rewrite for_each_print_run. reflexivity.
Qed.

(** ** The summary *)

Lemma prints_only_print (l : line) : prints_only (print l).
Proof. intros s. now exists [l]. Qed.

Lemma prints_only_ret : prints_only (ret tt).
Proof. intros s. exists []. rewrite app_nil_r. now destruct s. Qed.

Lemma prints_only_seq (m k : M unit) :
  prints_only m -> prints_only k -> prints_only (m ;; k).
Proof.
  intros Hm Hk s. unfold bind.
  destruct (Hm s) as [o1 ->].
  destruct (Hk (mkState (errors s) (warnings s) (stdout s ++ o1))) as [o2 ->].
  exists (o1 ++ o2). simpl. now rewrite app_assoc.
Qed.

Lemma prints_only_when (b : bool) (m : M unit) :
  prints_only m -> prints_only (when b m).
Proof. destruct b; simpl; auto using prints_only_ret. Qed.

Lemma prints_only_numbered (l : list string) (i : nat) :
  prints_only (print_numbered i l).
Proof.
  revert i; induction l as [|x l IH]; intros i; simpl.
  - apply prints_only_ret.
  - apply prints_only_seq; [apply prints_only_print | apply IH].
Qed.

Lemma summary_returns (spec : yaml) (total_endpoints : nat) (s : state) :
  fst (summary spec total_endpoints s) =
  summary_outcome spec (errors s) (warnings s).
Proof.
  unfold summary.
  unfold bind at 1. unfold print at 1.
  unfold bind at 1. unfold read_errors at 1. cbn [errors warnings stdout].
  unfold bind at 1.
  destruct (prints_only_when (truthy (errors s))
              (print (PFailedCount (List.length (errors s))) ;;
               print_numbered 1 (errors s))
              (prints_only_seq _ _ (prints_only_print _) (prints_only_numbered _ _))
              (mkState (errors s) (warnings s) (stdout s ++ [PSummaryBanner])))
    as [o1 ->].
  cbn [errors warnings stdout].
  unfold bind at 1. unfold read_warnings at 1. cbn [errors warnings stdout].
  unfold bind at 1.
  destruct (prints_only_when (truthy (warnings s))
              (print (PWarningCount (List.length (warnings s))) ;;
               print_numbered 1 (warnings s))
              (prints_only_seq _ _ (prints_only_print _) (prints_only_numbered _ _))
              (mkState (errors s) (warnings s) ((stdout s ++ [PSummaryBanner]) ++ o1)))
    as [o2 ->].
  cbn [errors warnings stdout].
  unfold summary_outcome.
  destruct (negb (truthy (errors s)) && negb (truthy (warnings s))).
  - unfold bind, print, eval, obind; cbn [fst snd].
    destruct (subscript spec "openapi") as [v|e]; [|reflexivity].
    destruct (subscript spec "info") as [i|e]; [|reflexivity].
    cbn [errors warnings stdout].
    destruct (subscript i "version") as [v'|e]; reflexivity.
  - destruct (negb (truthy (errors s))); reflexivity.
Qed.

Lemma unchanged {A} (m : M A) (s : state) :
  appends 0 0 m ->
  errors (snd (m s)) = errors s /\ warnings (snd (m s)) = warnings s.
Proof.
  intros H. destruct (H s) as (e & w & E & W & Le & Lw).
  destruct e; [|simpl in Le; lia]. destruct w; [|simpl in Lw; lia].
  now rewrite app_nil_r in E, W.
Qed.

(** ** The whole function *)

Lemma validate_loaded (spec_path content : string) (spec : yaml) (s : state) :
  validate_openapi_spec spec_path (Loaded content spec) s =
  match rule_engine content spec
          (mkState [] []
             (((stdout s ++ [PValidating]) ++ [PFile spec_path]) ++ [PYamlValid]))
  with
  | (Return total_endpoints, s1) => summary spec total_endpoints s1
  | (Raise e, s1) => (Raise e, s1)
  end.
Proof. reflexivity. Qed.

Lemma summary_outcome_verdict (spec : yaml) (errs warns : list string) (ok : bool) :
  summary_outcome spec errs warns = Return ok -> ok = negb (truthy errs).
Proof.
  unfold summary_outcome.
  destruct errs as [|e errs], warns as [|w warns]; cbn [truthy negb andb];
    try (intros H; now inversion H).
  destruct (subscript spec "openapi"); cbn [obind]; [|discriminate].
  destruct (subscript spec "info") as [i|]; cbn [obind]; [|discriminate].
  destruct (subscript i "version"); cbn [obind]; [|discriminate].
  intros H; now inversion H.
Qed.

Lemma summary_verdict (spec : yaml) (total_endpoints : nat) (s s' : state)
  (ok : bool) :
  summary spec total_endpoints s = (Return ok, s') ->
  ok = negb (truthy (errors s')) /\ errors s' = errors s /\ warnings s' = warnings s.
Proof.
  intros H.
  pose proof (summary_returns spec total_endpoints s) as R.
  pose proof (unchanged _ s (summary_appends spec total_endpoints)) as [E W].
  rewrite H in R, E, W. cbn [fst snd] in R, E, W.
  symmetry in R. apply summary_outcome_verdict in R.
  rewrite E. auto.
Qed.

Lemma validate_verdict (spec_path content : string) (spec : yaml) (s s' : state)
  (ok : bool) :
  validate_openapi_spec spec_path (Loaded content spec) s = (Return ok, s') ->
  ok = negb (truthy (errors s')).
Proof.
  rewrite validate_loaded.
  destruct (rule_engine content spec _) as [[total|e] s1]; [|discriminate].
  intros H. now apply summary_verdict in H.
Qed.

Lemma validate_errors_kept (spec_path content : string) (spec : yaml) (s : state) :
  exists e,
    errors (snd (validate_openapi_spec spec_path (Loaded content spec) s)) =
    errors (snd (check_1 content
                   (mkState [] []
                      (((stdout s ++ [PValidating]) ++ [PFile spec_path])
                       ++ [PYamlValid])))) ++ e.
Proof.
  rewrite validate_loaded.
  set (s0 := mkState [] [] _).
  unfold rule_engine. unfold bind at 1.
  destruct (check_1 content s0) as [[[]|x] s1] eqn:C1.
  - destruct (checks_2_to_5_append content spec s1) as (e & w & E & _).
    cbn [snd].
    destruct (bind (check_2 content) _ s1) as [[total|x] s2]; cbn [snd] in E.
    + destruct (unchanged _ s2 (summary_appends spec total)) as [E2 _].
      exists e. now rewrite E2.
    + now exists e.
  - exists []. now rewrite app_nil_r.
Qed.

(** ** Exit code and verdict *)

Lemma main_loaded (spec_path content : string) (spec : yaml) :
  match validate_openapi_spec spec_path (Loaded content spec) fresh with
  | (Return ok, s') =>
      ok = negb (truthy (errors s')) /\
      main spec_path (Loaded content spec) = (if ok then 0 else 1)%Z
  | (Raise _, _) => main spec_path (Loaded content spec) = 1%Z
  end.
Proof.
  unfold main.
  destruct (validate_openapi_spec spec_path (Loaded content spec) fresh)
    as [[ok|e] s'] eqn:V; cbn [fst]; [|reflexivity].
  split; [|reflexivity]. now apply validate_verdict in V.
Qed.

(** C3. The exit code is 0 exactly when the file was loaded, the run returned
    and its errors collection is empty; the value returned is then
    [errors is empty], whatever the warnings.  A run that raises has no
    verdict and exits with 1.  A file that is missing or does not parse ends
    the run with exit code 1, after the two header lines and the diagnostic,
    with both collections empty and no check started.  The summary returns
    [False] when there is an error and [True] when there are warnings only. *)
Theorem exit_code_verdict (spec_path : string) (file : file_read) :
  (main spec_path file = 0%Z <->
   exists content spec ok s',
     file = Loaded content spec /\
     validate_openapi_spec spec_path file fresh = (Return ok, s') /\
     errors s' = []) /\
  match file with
  | Loaded content spec =>
      match validate_openapi_spec spec_path file fresh with
      | (Return ok, s') =>
          ok = negb (truthy (errors s')) /\
          main spec_path file = (if ok then 0 else 1)%Z
      | (Raise _, _) => main spec_path file = 1%Z
      end
  | FileNotFound =>
      validate_openapi_spec spec_path file fresh =
      (Return false,
       mkState [] [] [PValidating; PFile spec_path; PFileNotFound spec_path]) /\
      main spec_path file = 1%Z
  | YAMLError e =>
      validate_openapi_spec spec_path file fresh =
      (Return false,
       mkState [] [] [PValidating; PFile spec_path; PYamlParsingError e]) /\
      main spec_path file = 1%Z
  end /\
  (forall spec total_endpoints s,
     fst (summary spec total_endpoints s) =
     match errors s, warnings s with
     | _ :: _, _ => Return false
     | [], _ :: _ => Return true
     | [], [] => summary_outcome spec [] []
     end).
Proof.
  split; [|split];
    [| |intros spec total s; rewrite summary_returns;
        now destruct (errors s), (warnings s)].
  all: destruct file as [|e|content spec].
  - split; [discriminate|]. intros (c & sp & ok & s' & H & _). discriminate.
  - split; [discriminate|]. intros (c & sp & ok & s' & H & _). discriminate.
  - pose proof (main_loaded spec_path content spec) as L.
    destruct (validate_openapi_spec spec_path (Loaded content spec) fresh)
      as [[ok|x] s'] eqn:V.
    + destruct L as [Hok Hmain]. rewrite Hmain. split.
      * intros H. exists content, spec, ok, s'. repeat split.
        destruct ok; [|discriminate].
        destruct (errors s'); [reflexivity|discriminate].
      * intros (c & sp & ok' & s'' & _ & E & Hnil).
        inversion E; subst ok' s''. rewrite Hnil in Hok. now subst ok.
    + rewrite L. split; [discriminate|].
      intros (c & sp & ok' & s'' & _ & E & _). discriminate.
  - split; reflexivity.
  - split; reflexivity.
  - apply main_loaded.
Qed.

(** ** Bounds on the two collections *)

(** C10. Whatever the input, and whether the run returns or raises, the
    errors collection ends with at most 4 findings and the warnings collection
    with at most 1: checks 1 to 4 each append at most one error and no warning,
    check 5 at most one warning and no error, and the summary appends
    nothing. *)
Theorem findings_bounded (spec_path : string) (file : file_read) (s : state) :
  (List.length (errors (snd (validate_openapi_spec spec_path file s))) <= 4 /\
   List.length (warnings (snd (validate_openapi_spec spec_path file s))) <= 1) /\
  (forall content spec total_endpoints,
     appends 1 0 (check_1 content) /\
     appends 1 0 (check_2 content) /\
     appends 1 0 (check_3 spec) /\
     appends 1 0 (check_4 spec) /\
     appends 0 1 (check_5 spec) /\
     appends 0 0 (summary spec total_endpoints)).
Proof.
  split.
  - destruct file as [|e|content spec]; [cbn; lia | cbn; lia |].
    rewrite validate_loaded. set (s0 := mkState [] [] _).
    destruct (rule_engine_appends content spec s0) as (e & w & E & W & Le & Lw).
    destruct (rule_engine content spec s0) as [[total|x] s1]; cbn [snd] in *.
    + destruct (unchanged _ s1 (summary_appends spec total)) as [E1 W1].
      rewrite E1, W1, E, W. cbn. lia.
    + rewrite E, W. cbn. lia.
  - intros content spec total_endpoints.
    repeat split;
      auto using check_1_appends, check_2_appends, check_3_appends,
        check_4_appends, check_5_appends, summary_appends.
Qed.

(** ** The casing checks *)

(** C7. A text with no occurrence of [operationID:] and none of a newline, two
    spaces and [Parameters:] passes checks 1 and 2 with no finding.  A text with
    exactly one occurrence of [operationID:], as one line
    [operationID: getUser] gives, makes check 1 record exactly one error, and
    the run then fails: the exit code is 1 for every parsed document. *)
Theorem casing_checks (content : string) :
  (occurrences re_operationID content = 0 ->
   occurrences re_Parameters content = 0 ->
   forall s,
     (check_1 content ;; check_2 content) s =
     (Return tt,
      mkState (errors s) (warnings s)
        ((((stdout s ++ [PChecking 1]) ++ [PCasingOk 1]) ++ [PChecking 2])
         ++ [PCasingOk 2]))) /\
  (occurrences re_operationID content = 1 ->
   (forall s,
      check_1 content s =
      (Return tt,
       mkState (errors s ++ [msg_operationID 1]) (warnings s)
         (stdout s ++ [PChecking 1]))) /\
   (forall spec_path spec,
      main spec_path (Loaded content spec) = 1%Z /\
      forall ok s',
        validate_openapi_spec spec_path (Loaded content spec) fresh = (Return ok, s') ->
        ok = false)).
Proof.
  split.
  - intros H1 H2 s. unfold bind. rewrite check_1_run, check_2_run.
    now rewrite (findall_none _ _ H1), (findall_none _ _ H2).
  - intros H1.
    assert (R : forall s, check_1 content s =
                (Return tt,
                 mkState (errors s ++ [msg_operationID 1]) (warnings s)
                   (stdout s ++ [PChecking 1]))).
    { intros s. rewrite check_1_run.
      pose proof (findall_single _ _ H1) as L.
      destruct (findall re_operationID content) as [|m ms]; [discriminate|].
      now rewrite L. }
    split; [exact R|].
    intros spec_path spec.
    assert (F : forall ok s',
               validate_openapi_spec spec_path (Loaded content spec) fresh
               = (Return ok, s') -> ok = false).
    { intros ok s' V.
      destruct (validate_errors_kept spec_path content spec fresh) as [e E].
      rewrite R, V in E. cbn [snd errors] in E.
      apply validate_verdict in V. rewrite V, E. reflexivity. }
    split; [|exact F].
    unfold main.
    destruct (validate_openapi_spec spec_path (Loaded content spec) fresh)
      as [[ok|x] s'] eqn:V; cbn [fst]; [|reflexivity].
    now rewrite (F ok s' eq_refl).
Qed.

(** ** Independence from earlier runs *)

Lemma same_findings_refl (s : state) : same_findings s s.
Proof. now split. Qed.

Lemma blind_ret {A} (a : A) : console_blind (ret a).
Proof. intros s t H. now split. Qed.

Lemma blind_eval {A} (o : outcome A) : console_blind (eval o).
Proof. intros s t H. now split. Qed.

Lemma blind_print (l : line) : console_blind (print l).
Proof. intros s t [E W]. now repeat split. Qed.

Lemma blind_read_errors : console_blind read_errors.
Proof. intros s t [E W]. cbn. rewrite E. now repeat split. Qed.

Lemma blind_read_warnings : console_blind read_warnings.
Proof. intros s t [E W]. cbn. rewrite W. now repeat split. Qed.

Lemma blind_errors_append (msg : string) : console_blind (errors_append msg).
Proof. intros s t [E W]. cbn. rewrite E. now repeat split. Qed.

Lemma blind_warnings_append (msg : string) : console_blind (warnings_append msg).
Proof. intros s t [E W]. cbn. rewrite W. now repeat split. Qed.

Lemma blind_bind {A B} (m : M A) (k : A -> M B) :
  console_blind m -> (forall a, console_blind (k a)) -> console_blind (bind m k).
Proof.
  intros Hm Hk s t H. unfold bind.
  destruct (Hm s t H) as [F S].
  destruct (m s) as [[a|x] s1], (m t) as [[b|y] t1]; cbn [fst snd] in *;
    try discriminate.
  - inversion F; subst b. now apply Hk.
  - inversion F; subst y. now split.
Qed.

Lemma blind_when (b : bool) (m : M unit) :
  console_blind m -> console_blind (when b m).
Proof. destruct b; simpl; auto using blind_ret. Qed.

Lemma blind_for_each_print {A} (l : list A) (f : A -> line) :
  console_blind (for_each l (fun x => print (f x))).
Proof.
  induction l as [|x l IH]; simpl.
  - apply blind_ret.
  - apply blind_bind; [apply blind_print | intros _; exact IH].
Qed.

Lemma blind_print_numbered (l : list string) (i : nat) :
  console_blind (print_numbered i l).
Proof.
  revert i; induction l as [|x l IH]; intros i; simpl.
  - apply blind_ret.
  - apply blind_bind; [apply blind_print | intros _; apply IH].
Qed.

Ltac blind :=
  repeat first
    [ apply blind_ret | apply blind_eval | apply blind_print
    | apply blind_read_errors | apply blind_read_warnings
    | apply blind_errors_append | apply blind_warnings_append
    | apply blind_for_each_print | apply blind_print_numbered
    | apply blind_when
    | apply blind_bind; [|intros ?]
    | match goal with
      | |- console_blind (if ?b then _ else _) => destruct b
      | |- console_blind (let '(_, _) := ?r in _) => destruct r
      end ].

Lemma blind_rule_engine (content : string) (spec : yaml) :
  console_blind (rule_engine content spec).
Proof.
  unfold rule_engine, check_1, check_2, check_3, check_4, check_5; cbv zeta.
  blind.
Qed.

Lemma blind_summary (spec : yaml) (total_endpoints : nat) :
  console_blind (summary spec total_endpoints).
Proof. unfold summary. blind. Qed.

Lemma validate_from (spec_path : string) (file : file_read) (s : state) :
  validate_openapi_spec spec_path file s =
  match file with
  | YAMLError e => print (PYamlParsingError e) ;; ret false
  | FileNotFound => print (PFileNotFound spec_path) ;; ret false
  | Loaded content spec =>
      print PYamlValid ;;
      total_endpoints <- rule_engine content spec ;;
      summary spec total_endpoints
  end (mkState [] [] ((stdout s ++ [PValidating]) ++ [PFile spec_path])).
Proof. reflexivity. Qed.

(** C8. Two runs on the same path and file contents return the same value (or
    raise the same exception) and end with the same errors and the same
    warnings, from whatever state each starts: the collections are created
    anew by each run and nothing the console already shows is read back. *)
Theorem validation_deterministic (spec_path : string) (file : file_read)
  (s t : state) :
  fst (validate_openapi_spec spec_path file s)
  = fst (validate_openapi_spec spec_path file t) /\
  errors (snd (validate_openapi_spec spec_path file s))
  = errors (snd (validate_openapi_spec spec_path file t)) /\
  warnings (snd (validate_openapi_spec spec_path file s))
  = warnings (snd (validate_openapi_spec spec_path file t)).
Proof.
  rewrite !validate_from.
  assert (B : console_blind
                match file with
                | YAMLError e => print (PYamlParsingError e) ;; ret false
                | FileNotFound => print (PFileNotFound spec_path) ;; ret false
                | Loaded content spec =>
                    print PYamlValid ;;
                    total_endpoints <- rule_engine content spec ;;
                    summary spec total_endpoints
                end).
  { destruct file as [|e|content spec].
    - blind.
    - blind.
    - apply blind_bind; [apply blind_print|]. intros _.
      apply blind_bind; [apply blind_rule_engine|]. intros total.
      apply blind_summary. }
  match goal with
  | |- fst (_ ?a) = fst (_ ?b) /\ _ =>
      destruct (B a b) as [F [E W]]; [now split | now repeat split]
  end.
Qed.

(** ** Loops over local variables *)

Lemma for_acc_unchanged {A B} (l : list A) (acc : B) (body : B -> A -> outcome B) :
  (forall x, In x l -> body acc x = Return acc) ->
  for_acc l acc body = Return acc.
Proof.
  induction l as [|x l IH]; intros H; [reflexivity|].
  cbn [for_acc]. rewrite H by now left. cbn [obind].
  apply IH. intros y Hy. apply H. now right.
Qed.

Lemma for_acc_returns {A B} (l : list A) (acc : B) (body : B -> A -> outcome B) :
  (forall acc x, In x l -> exists acc', body acc x = Return acc') ->
  exists r, for_acc l acc body = Return r.
Proof.
  revert acc; induction l as [|x l IH]; intros acc H; [now exists acc|].
  cbn [for_acc]. destruct (H acc x) as [acc' ->]; [now left|]. cbn [obind].
  apply IH. intros a y Hy. apply H. now right.
Qed.

(** ** Check 3 *)

Lemma dict_get_existsb (d : list (scalar * yaml)) (k : string) :
  existsb (fun kv => scalar_is k (fst kv)) d =
  match dict_get d k with
  | Some _ => true
  | None => false
  end.
Proof.
  induction d as [|[k' v] d IH]; [reflexivity|].
  cbn [existsb dict_get fst]. now destruct (scalar_is k k').
Qed.

Lemma check_3_methods_identified (path : scalar) (methods : list (scalar * yaml))
  (paths_without_op : list string) (total_endpoints : nat) :
  forallb identified methods = true ->
  for_acc methods (paths_without_op, total_endpoints) (check_3_method path) =
  Return (paths_without_op,
          total_endpoints + List.length (filter is_endpoint methods)).
Proof.
  revert total_endpoints.
  induction methods as [|[method details] methods IH]; intros total H.
  - cbn. now rewrite Nat.add_0_r.
  - cbn [forallb] in H. apply andb_prop in H as [Hid Hrest].
    cbn [for_acc filter]. unfold check_3_method at 1, is_endpoint at 1.
    unfold identified in Hid. cbn [fst snd] in *.
    destruct (scalar_is "parameters" method); cbn [negb andb orb] in *.
    + cbn [obind]. now apply IH.
    + destruct details as [c|l|d]; try discriminate.
      cbn [isinstance_dict contains]. rewrite dict_get_existsb.
      destruct (dict_get d "operationId"); [|discriminate].
      cbn [obind negb List.length]. rewrite IH by exact Hrest.
      f_equal. f_equal. lia.
Qed.

Lemma check_3_paths_identified (paths : list (scalar * list (scalar * yaml)))
  (paths_without_op : list string) (total_endpoints : nat) :
  all_identified paths = true ->
  for_acc (map (fun pm => (fst pm, YDict (snd pm))) paths)
    (paths_without_op, total_endpoints) check_3_path =
  Return (paths_without_op, total_endpoints + endpoint_count paths).
Proof.
  revert total_endpoints.
  induction paths as [|[path methods] paths IH]; intros total H.
  - cbn. now rewrite Nat.add_0_r.
  - unfold all_identified in H. cbn [forallb snd] in H.
    apply andb_prop in H as [Hid Hrest].
    cbn [map for_acc fst snd]. unfold check_3_path at 1. cbn [items obind].
    rewrite check_3_methods_identified by exact Hid. cbn [obind].
    rewrite IH by exact Hrest.
    unfold endpoint_count. cbn [map snd]. unfold list_sum. cbn [fold_right].
    now rewrite Nat.add_assoc.
Qed.

(** C4. In a document whose paths mapping has mappings as values, where every
    entry under every path other than "parameters" is a mapping with an
    operationId, check 3 records nothing, and the count it returns and prints
    is the number of entries whose key is not "parameters" and whose value is
    a mapping. *)
Theorem check_3_all_identified (top : list (scalar * yaml))
  (paths : list (scalar * list (scalar * yaml))) (s : state) :
  dict_get top "paths" = Some (paths_mapping paths) ->
  all_identified paths = true ->
  check_3 (YDict top) s =
  (Return (endpoint_count paths),
   mkState (errors s) (warnings s)
     ((stdout s ++ [PChecking 3])
      ++ [PAllHaveOperationId (endpoint_count paths)])).
Proof.
  intros Hpaths Hid.
  rewrite check_3_run. unfold check_3_loop, subscript. rewrite Hpaths.
  unfold paths_mapping. cbn [obind items].
  now rewrite check_3_paths_identified.
Qed.

(** ** Check 4 *)

Lemma has_userId_documented (spec : yaml) (method path : string) :
  documents_userId spec method path -> has_userId spec method path = Return true.
Proof.
  intros (op & params & p & (top & paths & methods & -> & Hp & Hm & Ho) & Hps & Hin & Hname).
  unfold has_userId, subscript, get. rewrite Hp. cbn [obind].
  rewrite Hm. cbn [obind]. rewrite Ho. cbn [obind]. rewrite Hps. cbn [obind iter].
  f_equal. apply existsb_exists. exists (YDict p). split.
  - apply filter_In. now split.
  - unfold names_userId. now rewrite Hname.
Qed.

Lemma has_userId_no_parameters (spec : yaml) (method path : string)
  (op : list (scalar * yaml)) :
  operation_at spec method path op ->
  dict_get op "parameters" = None ->
  has_userId spec method path = Return false.
Proof.
  intros (top & paths & methods & -> & Hp & Hm & Ho) Hps.
  unfold has_userId, subscript, get. rewrite Hp. cbn [obind].
  rewrite Hm. cbn [obind]. rewrite Ho. cbn [obind]. now rewrite Hps.
Qed.

Lemma has_userId_absent (spec : yaml) (method path : string) :
  absent_endpoint spec method path -> has_userId spec method path = Return false.
Proof.
  intros (top & paths & -> & Hp & [Hno|(methods & Hm & Hno)]);
    unfold has_userId, subscript, get; rewrite Hp; cbn [obind].
  - now rewrite Hno.
  - rewrite Hm. cbn [obind]. now rewrite Hno.
Qed.

Lemma check_4_acc (spec : yaml) (l : list (string * string))
  (acc missing_params : list string) :
  for_acc l acc (check_4_endpoint spec) = Return missing_params ->
  missing_params = acc ++ map endpoint_label (filter (lacks_userId spec) l).
Proof.
  revert acc; induction l as [|[method path] l IH]; intros acc H.
  - cbn in H. inversion H. now rewrite app_nil_r.
  - cbn [for_acc] in H. unfold check_4_endpoint at 1 in H.
    cbn [filter]. unfold lacks_userId at 1. cbn [fst snd].
    destruct (has_userId spec method path) as [[|]|e]; cbn [obind negb] in H.
    + now apply IH.
    + apply IH in H. rewrite H. cbn [map]. now rewrite <- app_assoc.
    + discriminate.
Qed.

Lemma check_4_loop_missing (spec : yaml) (missing_params : list string) :
  check_4_loop spec = Return missing_params ->
  missing_params = map endpoint_label (filter (lacks_userId spec) user_endpoints).
Proof. intros H. now apply check_4_acc in H. Qed.

(** C5. When each of the four user endpoints has a parameters sequence with a
    mapping entry named "userId", check 4 records nothing.  An operation with
    no parameters list counts as lacking the parameter.  When the loop
    completes, the endpoints lacking it are reported together in one error,
    and there is no error when there is none. *)
Theorem check_4_user_endpoints (spec : yaml) :
  ((forall method path, In (method, path) user_endpoints ->
      documents_userId spec method path) ->
   forall s,
     check_4 spec s =
     (Return tt,
      mkState (errors s) (warnings s)
        ((stdout s ++ [PChecking 4]) ++ [PAllHaveUserId 4]))) /\
  (forall method path op,
     operation_at spec method path op ->
     dict_get op "parameters" = None ->
     has_userId spec method path = Return false) /\
  (forall missing_params,
     check_4_loop spec = Return missing_params ->
     missing_params
     = map endpoint_label (filter (lacks_userId spec) user_endpoints) /\
     forall s,
       fst (check_4 spec s) = Return tt /\
       warnings (snd (check_4 spec s)) = warnings s /\
       errors (snd (check_4 spec s)) =
       errors s ++ (if truthy missing_params
                    then [msg_missing_params missing_params] else [])).
Proof.
  split; [|split].
  - intros H s. rewrite check_4_run.
    unfold check_4_loop, user_endpoints. cbn [for_acc]. unfold check_4_endpoint.
    rewrite !has_userId_documented by (apply H; cbn; tauto).
    reflexivity.
  - apply has_userId_no_parameters.
  - intros missing H. split; [now apply check_4_loop_missing|].
    intros s. rewrite check_4_run, H.
    destruct missing; cbn; rewrite ?app_nil_r; auto.
Qed.

(** C9. Take one of the four user endpoints whose path is absent from the
    paths mapping, or whose method is absent under its path.  Its turn of the
    loop looks it up without an exception, finds no "userId" parameter, as for
    an operation that is present without parameters, and adds its label to the
    missing ones; when the loop completes, the label is in the list the error
    of check 4 reports. *)
Theorem check_4_absent_endpoint (spec : yaml) (method path : string) :
  In (method, path) user_endpoints ->
  absent_endpoint spec method path ->
  has_userId spec method path = Return false /\
  (forall missing_params,
     check_4_endpoint spec missing_params (method, path) =
     Return (missing_params ++ [endpoint_label (method, path)])) /\
  (forall missing_params,
     check_4_loop spec = Return missing_params ->
     In (endpoint_label (method, path)) missing_params /\
     forall s,
       check_4 spec s =
       (Return tt,
        mkState (errors s ++ [msg_missing_params missing_params]) (warnings s)
          (stdout s ++ [PChecking 4]))).
Proof.
  intros Hin Habs.
  pose proof (has_userId_absent _ _ _ Habs) as Hno.
  split; [exact Hno|]. split.
  - intros missing. unfold check_4_endpoint. now rewrite Hno.
  - intros missing Hloop.
    assert (Hm : In (endpoint_label (method, path)) missing).
    { rewrite (check_4_loop_missing _ _ Hloop).
      apply in_map, filter_In. split; [exact Hin|].
      unfold lacks_userId. cbn [fst snd]. now rewrite Hno. }
    split; [exact Hm|].
    intros s. rewrite check_4_run, Hloop.
    destruct missing; [contradiction|reflexivity].
Qed.

(** ** Check 5 *)

Lemma value_is_refl (f : string) : value_is f (YStr f) = true.
Proof. apply String.eqb_refl. Qed.

Lemma declared_required_declares (spec : yaml) (method path status : string)
  (required : list yaml) :
  declares_required spec (lower method) path status required ->
  declared_required spec method path status = Return (YList required).
Proof.
  intros (op & rs & r & c & m & sch & (top & paths & methods & -> & Hp & Hm & Ho)
          & H1 & H2 & H3 & H4 & H5 & H6).
  unfold declared_required, subscript, get. rewrite Hp. cbn [obind].
  rewrite Hm. cbn [obind]. rewrite Ho. cbn [obind]. rewrite H1. cbn [obind].
  rewrite H2. cbn [obind]. rewrite H3. cbn [obind]. rewrite H4. cbn [obind].
  rewrite H5. cbn [obind]. now rewrite H6.
Qed.

Lemma missing_fields_covered (required : list yaml) (expected_required : list string) :
  (forall f, In f expected_required -> In (YStr f) required) ->
  missing_fields (YList required) expected_required = Return [].
Proof.
  induction expected_required as [|f rest IH]; intros H; [reflexivity|].
  cbn [missing_fields contains obind].
  rewrite IH by (intros g Hg; apply H; now right). cbn [obind].
  assert (E : existsb (value_is f) required = true).
  { apply existsb_exists. exists (YStr f). split; [apply H; now left|].
    apply value_is_refl. }
  now rewrite E.
Qed.

Lemma check_5_acc (spec : yaml)
  (l : list (string * string * string * list string))
  (acc schemas_missing_required : list string) :
  for_acc l acc (check_5_response spec) = Return schemas_missing_required ->
  List.length schemas_missing_required
  = List.length acc + List.length (filter (has_difference spec) l).
Proof.
  revert acc; induction l as [|[[[method path] status] expected] l IH];
    intros acc H.
  - cbn in H. inversion H. cbn. lia.
  - cbn [for_acc] in H. unfold check_5_response at 1 in H.
    cbn [filter]. unfold has_difference at 1, difference.
    destruct (declared_required spec method path status) as [required|e];
      cbn [obind] in *; [|discriminate].
    destruct (missing_fields required expected) as [[|f fs]|e];
      cbn [obind truthy] in *; [| |discriminate].
    + now apply IH.
    + apply IH in H. rewrite H, length_app. cbn. lia.
Qed.

(** C6. When, for each of the four response tuples, the document declares a
    required sequence at
    [paths[path][method].responses[status].content["application/json"].schema.required]
    that holds every field of the baseline, check 5 records nothing.  Where the
    path is not in the paths mapping, the navigation steps fall back on empty
    mappings and end on the empty sequence. *)
Theorem check_5_baselines_covered (spec : yaml) :
  ((forall method path status expected_required,
      In (method, path, status, expected_required) responses_to_check ->
      exists required,
        declares_required spec (lower method) path status required /\
        forall f, In f expected_required -> In (YStr f) required) ->
   forall s,
     check_5 spec s =
     (Return tt,
      mkState (errors s) (warnings s)
        ((stdout s ++ [PChecking 5]) ++ [PSchemasOk]))) /\
  (forall top paths method path status,
     spec = YDict top ->
     dict_get top "paths" = Some (YDict paths) ->
     dict_get paths path = None ->
     declared_required spec method path status = Return (YList [])).
Proof.
  split.
  - intros H s. rewrite check_5_run.
    assert (R : forall acc t, In t responses_to_check ->
                  check_5_response spec acc t = Return acc).
    { intros acc [[[method path] status] expected] Hin.
      destruct (H _ _ _ _ Hin) as (required & Hd & Hsub).
      unfold check_5_response.
      rewrite (declared_required_declares _ _ _ _ _ Hd). cbn [obind].
      now rewrite (missing_fields_covered _ _ Hsub). }
    unfold check_5_loop. now rewrite for_acc_unchanged by (intros; now apply R).
  - intros top paths method path status -> Hp Hno.
    unfold declared_required, subscript, get. rewrite Hp. cbn [obind].
    now rewrite Hno.
Qed.

(** C2, as the code has it.  Check 5 never touches the errors collection.
    When its loop completes with [k] of the four tuples having a non-empty
    difference, it appends a single warning, whose text gives [k], if [k] is
    at least 1, and none if [k] is 0; the tuples themselves are only printed,
    one line each.  When the loop raises, nothing is appended. *)
Theorem check_5_one_warning (spec : yaml) (s : state) :
  match check_5_loop spec with
  | Return schemas_missing_required =>
      List.length schemas_missing_required = differing spec /\
      check_5 spec s =
      (Return tt,
       mkState (errors s)
         (warnings s ++ (if (differing spec =? 0)%nat then []
                         else [msg_schemas (differing spec)]))
         ((stdout s ++ [PChecking 5])
          ++ (if (differing spec =? 0)%nat then [PSchemasOk]
              else map PSchemaMissing schemas_missing_required)))
  | Raise e =>
      check_5 spec s =
      (Raise e, mkState (errors s) (warnings s) (stdout s ++ [PChecking 5]))
  end.
Proof.
  rewrite check_5_run.
  destruct (check_5_loop spec) as [schemas|e] eqn:L; [|reflexivity].
  assert (K : List.length schemas = differing spec).
  { unfold check_5_loop in L. now apply check_5_acc in L. }
  split; [exact K|].
  rewrite <- K. destruct schemas; cbn [List.length Nat.eqb].
  - now rewrite app_nil_r.
  - reflexivity.
Qed.

(** ** The theorems at sample documents *)

Ltac each_member H :=
  cbn in H;
  repeat (destruct H as [H|H]; [inversion H; subst; try clear H|]);
  try contradiction.


(** On an empty paths mapping all four tuples have a non-empty difference,
    and check 5 appends one warning, not four. *)
Lemma check_5_four_tuples_one_warning :
  differing bare = 4 /\
  warnings (snd (check_5 bare fresh)) = [msg_schemas 4] /\
  List.length (warnings (snd (check_5 bare fresh)))
  <> List.length (warnings fresh) + differing bare.
Proof.
  split; [reflexivity|]. split; [reflexivity|].
  vm_compute. discriminate.
Qed.

Lemma exit_code_verdict_witness :
  main "api/openapi.yaml" (Loaded scenario_C_text scenario_C) = 0%Z /\
  main "api/openapi.yaml" (Loaded scenario_D_text scenario_D) = 0%Z /\
  main "api/openapi.yaml" (Loaded bare_text bare) = 1%Z.
Proof.
  split; [|split].
  - apply (proj1 (exit_code_verdict "api/openapi.yaml"
                    (Loaded scenario_C_text scenario_C))).
    exists scenario_C_text, scenario_C, true,
      (snd (validate_openapi_spec "api/openapi.yaml"
              (Loaded scenario_C_text scenario_C) fresh)).
    split; [reflexivity|]. split; vm_compute; reflexivity.
  - apply (proj1 (exit_code_verdict "api/openapi.yaml"
                    (Loaded scenario_D_text scenario_D))).
    exists scenario_D_text, scenario_D, true,
      (snd (validate_openapi_spec "api/openapi.yaml"
              (Loaded scenario_D_text scenario_D) fresh)).
    split; [reflexivity|]. split; vm_compute; reflexivity.
  - destruct (exit_code_verdict "api/openapi.yaml" (Loaded bare_text bare))
      as (_ & H & _).
    vm_compute in H. vm_compute. apply H.
Defined.

Lemma check_3_all_identified_witness :
  dict_get [(SStr "openapi", YStr "3.0.0");
            (SStr "info", YDict [(SStr "version", YStr "1.0.0")]);
            (SStr "paths", paths_mapping scenario_C_paths)] "paths"
  = Some (paths_mapping scenario_C_paths) /\
  all_identified scenario_C_paths = true /\
  check_3 scenario_C fresh =
  (Return 6, mkState [] [] [PChecking 3; PAllHaveOperationId 6]).
Proof.
  split; [reflexivity|]. split; [reflexivity|].
  exact (check_3_all_identified
           [(SStr "openapi", YStr "3.0.0");
            (SStr "info", YDict [(SStr "version", YStr "1.0.0")]);
            (SStr "paths", paths_mapping scenario_C_paths)]
           scenario_C_paths fresh eq_refl eq_refl).
Defined.

Lemma scenario_C_documents_userId (method path : string) :
  In (method, path) user_endpoints -> documents_userId scenario_C method path.
Proof.
  intros H. each_member H;
    unfold documents_userId, operation_at; repeat econstructor.
Defined.

Lemma check_4_user_endpoints_witness :
  check_4 scenario_C fresh =
  (Return tt, mkState [] [] [PChecking 4; PAllHaveUserId 4]) /\
  has_userId no_parameters "get" "/user/{userId}" = Return false /\
  check_4_loop bare = Return (map endpoint_label user_endpoints) /\
  errors (snd (check_4 bare fresh))
  = [msg_missing_params (map endpoint_label user_endpoints)].
Proof.
  split; [|split; [|split]].
  - exact (proj1 (check_4_user_endpoints scenario_C)
             scenario_C_documents_userId fresh).
  - apply (proj1 (proj2 (check_4_user_endpoints no_parameters))
             "get" "/user/{userId}" [(SStr "operationId", YStr "getUser")]).
    + unfold operation_at. repeat econstructor.
    + reflexivity.
  - reflexivity.
  - destruct (proj2 (proj2 (check_4_user_endpoints bare))
                (map endpoint_label user_endpoints) eq_refl) as [_ H].
    destruct (H fresh) as (_ & _ & E). exact E.
Defined.

Lemma check_4_absent_endpoint_witness :
  In ("get", "/user/{userId}") user_endpoints /\
  absent_endpoint bare "get" "/user/{userId}" /\
  has_userId bare "get" "/user/{userId}" = Return false /\
  In "GET /user/{userId}" (map endpoint_label user_endpoints) /\
  errors (snd (check_4 bare fresh))
  = [msg_missing_params (map endpoint_label user_endpoints)].
Proof.
  assert (Hin : In ("get", "/user/{userId}") user_endpoints) by (cbn; tauto).
  assert (Habs : absent_endpoint bare "get" "/user/{userId}").
  { exists [(SStr "paths", YDict [])], [].
    split; [reflexivity|]. split; [reflexivity|]. now left. }
  destruct (check_4_absent_endpoint bare "get" "/user/{userId}" Hin Habs)
    as (Hno & _ & Hloop).
  destruct (Hloop (map endpoint_label user_endpoints) eq_refl) as [Hlab Hrun].
  split; [exact Hin|]. split; [exact Habs|]. split; [exact Hno|].
  split; [exact Hlab|]. now rewrite Hrun.
Defined.

Lemma scenario_C_declares_required
  (method path status : string) (expected_required : list string) :
  In (method, path, status, expected_required) responses_to_check ->
  exists required,
    declares_required scenario_C (lower method) path status required /\
    forall f, In f expected_required -> In (YStr f) required.
Proof.
  intros H. each_member H;
    (eexists; split;
     [unfold declares_required, operation_at; repeat econstructor
     |intros f Hf; each_member Hf; simpl; auto 10]).
Defined.

Lemma check_5_baselines_covered_witness :
  check_5 scenario_C fresh = (Return tt, mkState [] [] [PChecking 5; PSchemasOk]) /\
  declared_required bare "GET" "/products" "200" = Return (YList []).
Proof.
  split.
  - exact (proj1 (check_5_baselines_covered scenario_C)
             scenario_C_declares_required fresh).
  - exact (proj2 (check_5_baselines_covered bare)
             [(SStr "paths", YDict [])] [] "GET" "/products" "200"
             eq_refl eq_refl eq_refl).
Defined.

Lemma casing_checks_witness :
  occurrences re_operationID bare_text = 0 /\
  occurrences re_Parameters bare_text = 0 /\
  (check_1 bare_text ;; check_2 bare_text) fresh =
  (Return tt,
   mkState [] [] [PChecking 1; PCasingOk 1; PChecking 2; PCasingOk 2]) /\
  occurrences re_operationID scenario_A_text = 1 /\
  check_1 scenario_A_text fresh =
  (Return tt, mkState [msg_operationID 1] [] [PChecking 1]) /\
  main "api/openapi.yaml" (Loaded scenario_A_text scenario_A) = 1%Z.
Proof.
  destruct (casing_checks bare_text) as [Clean _].
  destruct (casing_checks scenario_A_text) as [_ One].
  destruct (One eq_refl) as [Recorded Failure].
  split; [reflexivity|]. split; [reflexivity|].
  split; [exact (Clean eq_refl eq_refl fresh)|].
  split; [reflexivity|].
  split; [exact (Recorded fresh)|].
  exact (proj1 (Failure "api/openapi.yaml" scenario_A)).
Defined.

(** A document that passes every check but has no "openapi" key: the run
    raises [KeyError] in the summary, with both collections empty, and the
    exit code is 1. *)
Example unversioned_run :
  fst (validate_openapi_spec "api/openapi.yaml" (Loaded unversioned_text unversioned) fresh)
  = Raise KeyError /\
  errors (snd (validate_openapi_spec "api/openapi.yaml"
                 (Loaded unversioned_text unversioned) fresh)) = [] /\
  main "api/openapi.yaml" (Loaded unversioned_text unversioned) = 1%Z.
Proof. repeat split; vm_compute; reflexivity. Qed.

(** Scenario D: one warning, and the run still passes. *)
Example scenario_D_run :
  fst (validate_openapi_spec "api/openapi.yaml" (Loaded scenario_D_text scenario_D) fresh)
  = Return true /\
  warnings (snd (validate_openapi_spec "api/openapi.yaml"
                   (Loaded scenario_D_text scenario_D) fresh)) = [msg_schemas 1] /\
  main "api/openapi.yaml" (Loaded scenario_D_text scenario_D) = 0%Z.
Proof. repeat split; vm_compute; reflexivity. Qed.

(** * Further properties of the checks *)

(** ** The number of matches the casing checks report *)

Lemma findall_from_drop (pat s : string) (skip : nat) :
  findall_from pat s skip = findall_from pat (drop skip s) 0.
Proof.
  revert s; induction skip as [|k IH]; intros s; [reflexivity|].
  destruct s as [|c s]; [reflexivity|]. cbn [findall_from drop]. apply IH.
Qed.

Lemma drop_length (n : nat) (s : string) :
  String.length (drop n s) <= String.length s.
Proof.
  revert s; induction n as [|n IH]; intros s; [apply Nat.le_refl|].
  destruct s as [|c s]; cbn [drop String.length]; [lia|].
  specialize (IH s). lia.
Qed.

Lemma drop_append (n : nat) (s post : string) :
  n <= String.length s -> drop n (s ++ post)%string = (drop n s ++ post)%string.
Proof.
  revert s; induction n as [|n IH]; intros s H; [reflexivity|].
  destruct s as [|c s]; cbn [String.length] in H; [lia|].
  cbn [append drop]. apply IH. lia.
Qed.

Lemma prefix_of_overlap (b pat post : string) :
  String.length b <= String.length pat ->
  prefix pat (b ++ post)%string = true -> prefix b pat = true.
Proof.
  revert pat; induction b as [|c b IH]; intros pat Hlen H.
  - now destruct pat.
  - destruct pat as [|c' pat]; cbn [String.length] in Hlen; [lia|].
    cbn [append prefix] in *.
    destruct (Ascii.ascii_dec c' c) as [->|Hne]; [|discriminate].
    destruct (Ascii.ascii_dec c c) as [_|Hne]; [|congruence].
    apply IH; [lia|exact H].
Qed.

Lemma unbordered_no_overlap (pat s : string) (j : nat) :
  unbordered pat = true -> prefix pat s = true ->
  1 <= j -> j < String.length pat ->
  prefix pat (drop j s) = false.
Proof.
  intros Hu Hp H1 Hj.
  apply prefix_split in Hp as [post ->].
  rewrite drop_append by lia.
  destruct (prefix pat (drop j pat ++ post)) eqn:E; [|reflexivity].
  apply prefix_of_overlap in E; [|apply drop_length].
  unfold unbordered in Hu. rewrite forallb_forall in Hu.
  assert (Hin : In j (seq 1 (String.length pat - 1))) by (apply in_seq; lia).
  apply Hu in Hin. now rewrite E in Hin.
Qed.

Lemma occurrences_drop (pat t : string) (k : nat) :
  (forall j, j < k -> prefix pat (drop j t) = false) ->
  occurrences pat t = occurrences pat (drop k t).
Proof.
  revert t; induction k as [|k IH]; intros t H; [reflexivity|].
  destruct t as [|c t]; [reflexivity|].
  cbn [occurrences drop].
  pose proof (H 0 ltac:(lia)) as H0. cbn [drop] in H0. rewrite H0.
  rewrite Nat.add_0_l.
  apply IH. intros j Hj. apply (H (S j)). lia.
Qed.

Lemma findall_counts_bounded (pat : string) (n : nat) (s : string) :
  unbordered pat = true -> String.length s <= n ->
  List.length (findall pat s) = occurrences pat s.
Proof.
  intros Hu. revert s; induction n as [|n IH]; intros s Hlen.
  - destruct s; [reflexivity|]. cbn [String.length] in Hlen. lia.
  - destruct s as [|c s]; [reflexivity|].
    cbn [String.length] in Hlen.
    unfold findall. cbn [findall_from occurrences].
    destruct (prefix pat (String c s)) eqn:Hp.
    + cbn [List.length]. rewrite findall_from_drop.
      change (1 + occurrences pat s) with (S (occurrences pat s)). f_equal.
      fold (findall pat (drop (String.length pat - 1) s)).
      rewrite IH by (pose proof (drop_length (String.length pat - 1) s); lia).
      symmetry. apply occurrences_drop. intros j Hj.
      change (drop j s) with (drop (S j) (String c s)).
      apply unbordered_no_overlap; auto; lia.
    + apply IH. lia.
Qed.

Lemma findall_counts (pat s : string) :
  unbordered pat = true -> List.length (findall pat s) = occurrences pat s.
Proof.
  intros Hu. now apply (findall_counts_bounded pat (String.length s)).
Qed.

(** X1. Checks 1 and 2 always return.  Each appends exactly one error when its
    pattern occurs in the text and none when it does not, and the number the
    message gives is the number of places of the text where the pattern
    starts. *)
Theorem casing_checks_count (content : string) (s : state) :
  (fst (check_1 content s) = Return tt /\
   warnings (snd (check_1 content s)) = warnings s /\
   errors (snd (check_1 content s)) =
   errors s ++ (if (occurrences re_operationID content =? 0)%nat then []
                else [msg_operationID (occurrences re_operationID content)])) /\
  (fst (check_2 content s) = Return tt /\
   warnings (snd (check_2 content s)) = warnings s /\
   errors (snd (check_2 content s)) =
   errors s ++ (if (occurrences re_Parameters content =? 0)%nat then []
                else [msg_Parameters (occurrences re_Parameters content)])).
Proof.
  split.
  - rewrite check_1_run.
    rewrite <- (findall_counts re_operationID content) by reflexivity.
    destruct (findall re_operationID content); cbn [fst snd errors warnings];
      rewrite ?app_nil_r; auto.
  - rewrite check_2_run.
    rewrite <- (findall_counts re_Parameters content) by reflexivity.
    destruct (findall re_Parameters content); cbn [fst snd errors warnings];
      rewrite ?app_nil_r; auto.
Qed.

(** ** What check 3 flags *)

Lemma check_3_method_step (path : scalar) (paths_without_op : list string)
  (total_endpoints : nat) (method : scalar) (details : yaml) :
  check_3_method path (paths_without_op, total_endpoints) (method, details) =
  if is_endpoint (method, details) then
    if has_operationId details
    then Return (paths_without_op, S total_endpoints)
    else obind (key_upper method)
           (fun m => Return (paths_without_op ++ [(m ++ " " ++ str path)%string],
                             S total_endpoints))
  else Return (paths_without_op, total_endpoints).
Proof.
  unfold check_3_method, is_endpoint. cbn [fst snd].
  destruct (negb (scalar_is "parameters" method) && isinstance_dict details) eqn:E;
    [|reflexivity].
  apply andb_prop in E as [_ Hd].
  destruct details as [c|l|d]; try discriminate.
  cbn [contains obind has_operationId]. rewrite dict_get_existsb.
  now destruct (dict_get d "operationId").
Qed.

Lemma check_3_methods_keyed (path : scalar) (methods : list (string * yaml))
  (paths_without_op : list string) (total_endpoints : nat) :
  for_acc (key_entries methods) (paths_without_op, total_endpoints)
    (check_3_method path) =
  Return (paths_without_op ++ flagged_under path methods,
          total_endpoints
          + List.length (filter is_endpoint (key_entries methods))).
Proof.
  revert paths_without_op total_endpoints.
  induction methods as [|[method details] methods IH]; intros pwo total.
  - cbn. now rewrite app_nil_r, Nat.add_0_r.
  - unfold key_entries, flagged_under in *. cbn [map for_acc filter fst snd].
    rewrite check_3_method_step. unfold unidentified at 1. cbn [snd].
    destruct (is_endpoint (SStr method, details)); cbn [andb].
    + destruct (has_operationId details); cbn [negb key_upper obind map List.length].
      * rewrite IH. f_equal. f_equal. lia.
      * rewrite IH, <- app_assoc. cbn [app]. f_equal. f_equal. lia.
    + cbn [obind]. now rewrite IH.
Qed.

Lemma check_3_paths_keyed (paths : list (scalar * list (string * yaml)))
  (paths_without_op : list string) (total_endpoints : nat) :
  for_acc (map (fun pm => (fst pm, YDict (snd pm))) (keyed paths))
    (paths_without_op, total_endpoints) check_3_path =
  Return (paths_without_op ++ flagged paths,
          total_endpoints + endpoint_count (keyed paths)).
Proof.
  revert paths_without_op total_endpoints.
  induction paths as [|[path methods] paths IH]; intros pwo total.
  - cbn. now rewrite app_nil_r, Nat.add_0_r.
  - cbn [keyed map for_acc fst snd flagged flat_map].
    unfold check_3_path at 1. cbn [items obind].
    rewrite check_3_methods_keyed. cbn [obind].
    fold (keyed paths). rewrite IH, <- app_assoc.
    unfold endpoint_count. cbn [map snd]. unfold list_sum. cbn [fold_right].
    now rewrite Nat.add_assoc.
Qed.

(** X2. In a document whose paths mapping has mappings as values and ASCII
    strings as method keys, check 3 returns the number of endpoints, and
    records one error naming, in document order, every endpoint without an
    operationId as [METHOD path], or no error when there is none. *)
Theorem check_3_flags (top : list (scalar * yaml))
  (paths : list (scalar * list (string * yaml))) (s : state) :
  dict_get top "paths" = Some (paths_mapping (keyed paths)) ->
  ascii_keys paths = true ->
  check_3_loop (YDict top) = Return (flagged paths, endpoint_count (keyed paths)) /\
  fst (check_3 (YDict top) s) = Return (endpoint_count (keyed paths)) /\
  warnings (snd (check_3 (YDict top) s)) = warnings s /\
  errors (snd (check_3 (YDict top) s)) =
  errors s ++ (if truthy (flagged paths)
               then [msg_without_op (flagged paths)] else []).
Proof.
  intros Hp _.
  assert (L : check_3_loop (YDict top)
              = Return (flagged paths, endpoint_count (keyed paths))).
  { unfold check_3_loop, subscript. rewrite Hp. unfold paths_mapping.
    cbn [obind items]. now rewrite check_3_paths_keyed. }
  split; [exact L|]. rewrite check_3_run, L.
  destruct (flagged paths); cbn [fst snd errors warnings truthy];
    rewrite ?app_nil_r; auto.
Qed.

Lemma check_3_methods_count (path : scalar) (methods : list (scalar * yaml))
  (acc r : list string * nat) :
  for_acc methods acc (check_3_method path) = Return r ->
  List.length (fst r)
  = List.length (fst acc) + List.length (filter unidentified methods) /\
  snd r = snd acc + List.length (filter is_endpoint methods).
Proof.
  revert acc; induction methods as [|[method details] methods IH];
    intros [pwo total] H.
  - cbn in H. inversion H; subst. cbn. lia.
  - cbn [for_acc] in H. rewrite check_3_method_step in H.
    cbn [filter]. unfold unidentified at 1. cbn [snd].
    destruct (is_endpoint (method, details)); cbn [andb].
    + destruct (has_operationId details); cbn [negb].
      * cbn [obind] in H. apply IH in H. cbn [fst snd List.length] in *. lia.
      * destruct (key_upper method) as [m|e]; cbn [obind] in H; [|discriminate].
        apply IH in H. cbn [fst snd List.length] in *.
        rewrite length_app in H. cbn [List.length] in H. lia.
    + cbn [obind] in H. now apply IH in H.
Qed.

Lemma check_3_paths_count (paths : list (scalar * list (scalar * yaml)))
  (acc r : list string * nat) :
  for_acc (map (fun pm => (fst pm, YDict (snd pm))) paths) acc check_3_path
  = Return r ->
  List.length (fst r) = List.length (fst acc) + unidentified_count paths /\
  snd r = snd acc + endpoint_count paths.
Proof.
  revert acc; induction paths as [|[path methods] paths IH]; intros acc H.
  - cbn in H. inversion H; subst. cbn. lia.
  - cbn [map for_acc fst snd] in H. unfold check_3_path at 1 in H.
    cbn [items obind] in H.
    destruct (for_acc methods acc (check_3_method path)) as [acc'|e] eqn:M;
      cbn [obind] in H; [|discriminate].
    apply check_3_methods_count in M. apply IH in H.
    unfold unidentified_count, endpoint_count. cbn [map snd].
    unfold list_sum. cbn [fold_right].
    fold (list_sum (map (fun pm => List.length (filter unidentified (snd pm))) paths)).
    fold (list_sum (map (fun pm => List.length (filter is_endpoint (snd pm))) paths)).
    fold (unidentified_count paths). fold (endpoint_count paths). lia.
Qed.

Lemma check_3_methods_pass (path : scalar) (methods : list (scalar * yaml))
  (paths_without_op : list string) (total_endpoints : nat) :
  filter unidentified methods = [] ->
  for_acc methods (paths_without_op, total_endpoints) (check_3_method path) =
  Return (paths_without_op,
          total_endpoints + List.length (filter is_endpoint methods)).
Proof.
  revert total_endpoints.
  induction methods as [|[method details] methods IH]; intros total H.
  - cbn. now rewrite Nat.add_0_r.
  - cbn [filter] in H. unfold unidentified at 1 in H. cbn [snd] in H.
    cbn [for_acc filter]. rewrite check_3_method_step.
    destruct (is_endpoint (method, details)); cbn [andb] in H.
    + destruct (has_operationId details); cbn [negb] in H; [|discriminate].
      cbn [obind List.length]. rewrite IH by exact H. f_equal. f_equal. lia.
    + cbn [obind]. now apply IH.
Qed.

Lemma check_3_paths_pass (paths : list (scalar * list (scalar * yaml)))
  (paths_without_op : list string) (total_endpoints : nat) :
  unidentified_count paths = 0 ->
  for_acc (map (fun pm => (fst pm, YDict (snd pm))) paths)
    (paths_without_op, total_endpoints) check_3_path =
  Return (paths_without_op, total_endpoints + endpoint_count paths).
Proof.
  revert total_endpoints.
  induction paths as [|[path methods] paths IH]; intros total H.
  - cbn. now rewrite Nat.add_0_r.
  - unfold unidentified_count in H. cbn [map snd] in H.
    unfold list_sum in H. cbn [fold_right] in H.
    fold (list_sum (map (fun pm => List.length (filter unidentified (snd pm))) paths)) in H.
    fold (unidentified_count paths) in H.
    cbn [map for_acc fst snd]. unfold check_3_path at 1. cbn [items obind].
    rewrite check_3_methods_pass
      by (destruct (filter unidentified methods); [reflexivity|cbn in H; lia]).
    cbn [obind]. rewrite IH by lia.
    unfold endpoint_count. cbn [map snd]. unfold list_sum. cbn [fold_right].
    now rewrite Nat.add_assoc.
Qed.

(** X3. In a document whose paths mapping has mappings as values, whatever the
    method keys and the other entries under a path: when the loop of check 3
    completes, the endpoints it flagged are as many as the endpoints without
    an operationId and its total is the number of endpoints; and it completes
    with nothing flagged exactly when no endpoint lacks an operationId. *)
Theorem check_3_passes_iff (top : list (scalar * yaml))
  (paths : list (scalar * list (scalar * yaml))) :
  dict_get top "paths" = Some (paths_mapping paths) ->
  (forall paths_without_op total_endpoints,
     check_3_loop (YDict top) = Return (paths_without_op, total_endpoints) ->
     List.length paths_without_op = unidentified_count paths /\
     total_endpoints = endpoint_count paths) /\
  (check_3_loop (YDict top) = Return ([], endpoint_count paths) <->
   unidentified_count paths = 0).
Proof.
  intros Hp.
  assert (E : check_3_loop (YDict top) =
              for_acc (map (fun pm => (fst pm, YDict (snd pm))) paths)
                ([], 0) check_3_path).
  { unfold check_3_loop, subscript. now rewrite Hp. }
  rewrite E. split; [|split].
  - intros pwo total H. apply check_3_paths_count in H. cbn [fst snd] in H.
    now cbn in H.
  - intros H. apply check_3_paths_count in H. cbn [fst snd List.length] in H.
    lia.
  - intros H. now rewrite check_3_paths_pass.
Qed.

(** ** What check 4 accepts *)

Lemma value_is_true (k : string) (v : yaml) :
  value_is k v = true -> v = YStr k.
Proof.
  destruct v as [[| | | |t]|l|d]; try discriminate.
  cbn. intros H. apply String.eqb_eq in H. now subst.
Qed.

Lemma no_mapping_among_scalars (l : list scalar) :
  filter isinstance_dict (map YScalar l) = [].
Proof. induction l as [|c l IH]; [reflexivity|exact IH]. Qed.

Lemma no_mapping_among_keys (d : list (scalar * yaml)) :
  filter isinstance_dict (map (fun kv => YScalar (fst kv)) d) = [].
Proof. induction d as [|kv d IH]; [reflexivity|exact IH]. Qed.

Lemma no_mapping_among_chars (s : string) :
  filter isinstance_dict (chars s) = [].
Proof. induction s as [|c s IH]; [reflexivity|exact IH]. Qed.

Lemma has_userId_true (spec : yaml) (method path : string) :
  has_userId spec method path = Return true -> documents_userId spec method path.
Proof.
  unfold has_userId, subscript, get. intros H.
  destruct spec as [c|l|top]; try discriminate.
  destruct (dict_get top "paths") as [paths|] eqn:Hp; [|discriminate].
  cbn [obind] in H. destruct paths as [c|l|paths]; try discriminate.
  destruct (dict_get paths path) as [methods|] eqn:Hm; cbn [obind] in H;
    [|discriminate].
  destruct methods as [c|l|methods]; try discriminate.
  destruct (dict_get methods method) as [op|] eqn:Ho; cbn [obind] in H;
    [|discriminate].
  destruct op as [c|l|op]; try discriminate.
  destruct (dict_get op "parameters") as [params|] eqn:Hps; cbn [obind] in H;
    [|discriminate].
  destruct params as [[| | | |t]|params|d]; cbn [iter obind] in H;
    try discriminate.
  - now rewrite no_mapping_among_chars in H.
  - inversion H as [E]. apply existsb_exists in E as (x & Hin & Hx).
    apply filter_In in Hin as [Hin Hd].
    destruct x as [c|l|p]; try discriminate.
    unfold names_userId in Hx.
    destruct (dict_get p "name") as [v|] eqn:Hn; [|discriminate].
    apply value_is_true in Hx. subst v.
    exists op, params, p. split; [|auto].
    exists top, paths, methods. auto.
  - now rewrite no_mapping_among_keys in H.
Qed.

(** X4. Check 4 finds the "userId" parameter of an endpoint exactly when the
    operation at [paths[path][method]] has a parameters sequence with a mapping
    entry whose "name" is the string "userId"; so it completes with no error
    exactly when all four user endpoints document it. *)
Theorem check_4_passes_iff (spec : yaml) :
  (forall method path,
     has_userId spec method path = Return true <->
     documents_userId spec method path) /\
  (check_4_loop spec = Return [] <->
   forall method path, In (method, path) user_endpoints ->
     documents_userId spec method path).
Proof.
  split.
  - intros method path. split;
      [apply has_userId_true | apply has_userId_documented].
  - split.
    + intros H method path Hin.
      pose proof (check_4_loop_missing _ _ H) as M. symmetry in M.
      apply map_eq_nil in M.
      assert (L : lacks_userId spec (method, path) = false).
      { destruct (lacks_userId spec (method, path)) eqn:E; [|reflexivity].
        assert (Hf : In (method, path) (filter (lacks_userId spec) user_endpoints))
          by (apply filter_In; auto).
        rewrite M in Hf. contradiction. }
      unfold lacks_userId in L. cbn [fst snd] in L.
      apply has_userId_true.
      destruct (has_userId spec method path) as [[|]|e]; try discriminate.
      reflexivity.
    + intros H. unfold check_4_loop. apply for_acc_unchanged.
      intros [method path] Hin. unfold check_4_endpoint.
      now rewrite (has_userId_documented _ _ _ (H _ _ Hin)).
Qed.

(** ** The difference check 5 computes *)

Lemma missing_fields_list (required : list yaml) (expected_required : list string) :
  missing_fields (YList required) expected_required =
  Return (filter (fun f => negb (existsb (value_is f) required)) expected_required).
Proof.
  induction expected_required as [|f rest IH]; [reflexivity|].
  cbn [missing_fields contains obind filter]. rewrite IH. cbn [obind].
  now destruct (existsb (value_is f) required).
Qed.

(** X5. For a "required" that is a sequence, the fields check 5 reports
    missing are the fields of the baseline that are not, as strings, among its
    elements, in the order of the baseline.  For a "required" that is a
    scalar other than a string (null, a boolean, a number) the membership test
    raises [TypeError]. *)
Theorem missing_fields_difference (expected_required : list string) :
  (forall required,
     exists missing,
       missing_fields (YList required) expected_required = Return missing /\
       missing = filter (fun f => negb (existsb (value_is f) required))
                   expected_required /\
       forall f, In f missing <->
                 In f expected_required /\ ~ In (YStr f) required) /\
  (forall c, is_str c = false -> expected_required <> [] ->
     missing_fields (YScalar c) expected_required = Raise TypeError).
Proof.
  split.
  - intros required. eexists. split; [apply missing_fields_list|].
    split; [reflexivity|]. intros f. rewrite filter_In. split.
    + intros [Hin Hn]. split; [exact Hin|]. intros Hr.
      assert (E : existsb (value_is f) required = true).
      { apply existsb_exists. exists (YStr f). split; [exact Hr|].
        apply value_is_refl. }
      now rewrite E in Hn.
    + intros [Hin Hn]. split; [exact Hin|].
      destruct (existsb (value_is f) required) eqn:E; [|reflexivity].
      apply existsb_exists in E as (x & Hx & Hv).
      apply value_is_true in Hv. subst x. contradiction.
  - intros c Hc Hne. destruct expected_required as [|f rest]; [contradiction|].
    cbn [missing_fields contains]. now destruct c.
Qed.

(** ** What the summary writes *)

Lemma print_numbered_run (l : list string) (i : nat) (s : state) :
  print_numbered i l s =
  (Return tt, mkState (errors s) (warnings s) (stdout s ++ numbered i l)).
Proof.
  revert i s; induction l as [|x l IH]; intros i s; cbn [print_numbered numbered].
  - rewrite app_nil_r. now destruct s.
  - unfold bind, print at 1. rewrite IH. cbn [errors warnings stdout].
    now rewrite <- app_assoc.
Qed.

Lemma report_run (count : nat -> line) (l : list string) (s : state) :
  when (truthy l) (print (count (List.length l)) ;; print_numbered 1 l) s =
  (Return tt, mkState (errors s) (warnings s) (stdout s ++ report count l)).
Proof.
  unfold report. destruct l as [|x l]; cbn [truthy when].
  - unfold ret. rewrite app_nil_r. now destruct s.
  - unfold bind, print at 1. rewrite print_numbered_run.
    cbn [errors warnings stdout]. now rewrite <- app_assoc.
Qed.

Lemma summary_run (spec : yaml) (total_endpoints : nat) (s : state) :
  summary spec total_endpoints s =
  (summary_outcome spec (errors s) (warnings s),
   mkState (errors s) (warnings s)
     (stdout s ++ PSummaryBanner ::
      report PFailedCount (errors s) ++ report PWarningCount (warnings s)
      ++ verdict_lines spec total_endpoints (errors s) (warnings s))).
Proof.
  unfold summary.
  unfold bind at 1. unfold print at 1.
  unfold bind at 1. unfold read_errors at 1. cbn [errors warnings stdout].
  unfold bind at 1. rewrite report_run. cbn [errors warnings stdout].
  unfold bind at 1. unfold read_warnings at 1. cbn [errors warnings stdout].
  unfold bind at 1. rewrite report_run. cbn [errors warnings stdout].
  unfold summary_outcome, verdict_lines.
  destruct (negb (truthy (errors s)) && negb (truthy (warnings s))).
  - unfold bind, print, eval, obind; cbn [errors warnings stdout].
    destruct (subscript spec "openapi") as [v|e].
    + destruct (subscript spec "info") as [i|e]; cbn [errors warnings stdout].
      * destruct (subscript i "version") as [v'|e]; unfold ret;
          rewrite <- !app_assoc; reflexivity.
      * rewrite <- !app_assoc; reflexivity.
    + rewrite <- !app_assoc; reflexivity.
  - destruct (negb (truthy (errors s))); unfold bind, print, ret;
      cbn [errors warnings stdout]; rewrite <- !app_assoc; reflexivity.
Qed.

Lemma numbered_nth (l : list string) (k i : nat) (x : string) :
  nth_error l i = Some x -> In (PNumbered (k + i) x) (numbered k l).
Proof.
  revert k i; induction l as [|y l IH]; intros k i H.
  - now destruct i.
  - destruct i as [|i]; cbn [nth_error numbered] in *.
    + inversion H; subst. rewrite Nat.add_0_r. now left.
    + right. replace (k + S i) with (S k + i) by lia. now apply IH.
Qed.

(** X6. The summary appends nothing to the two collections and writes, after
    its banner, the number of errors and every error numbered from 1 in the
    order recorded, then the same for the warnings, each block only when its
    collection is not empty, and then the closing lines; so every finding
    recorded by the checks is shown with its position. *)
Theorem summary_reports (spec : yaml) (total_endpoints : nat) (s : state) :
  stdout (snd (summary spec total_endpoints s)) =
  stdout s ++ PSummaryBanner ::
  report PFailedCount (errors s) ++ report PWarningCount (warnings s)
  ++ verdict_lines spec total_endpoints (errors s) (warnings s) /\
  errors (snd (summary spec total_endpoints s)) = errors s /\
  warnings (snd (summary spec total_endpoints s)) = warnings s /\
  (forall i x, nth_error (errors s) i = Some x ->
     In (PNumbered (S i) x) (stdout (snd (summary spec total_endpoints s)))) /\
  (forall i x, nth_error (warnings s) i = Some x ->
     In (PNumbered (S i) x) (stdout (snd (summary spec total_endpoints s)))).
Proof.
  rewrite summary_run. cbn [snd errors warnings stdout].
  split; [reflexivity|]. split; [reflexivity|]. split; [reflexivity|].
  split; intros i x H; apply in_or_app; right; right;
    apply (numbered_nth _ 1) in H; cbn [Nat.add] in H.
  - apply in_or_app. left. unfold report.
    destruct (errors s); [contradiction|]. now right.
  - apply in_or_app. right. apply in_or_app. left. unfold report.
    destruct (warnings s); [contradiction|]. now right.
Qed.

(** ** How the checks compose *)

Lemma findall_nil_iff (pat s : string) :
  findall pat s = [] <-> occurrences pat s = 0.
Proof.
  split; [|apply findall_none].
  intros H. destruct (occurrences pat s) eqn:E; [reflexivity|].
  exfalso. apply (findall_some pat s); [lia|exact H].
Qed.

(** X7. The rule engine raises the exception of the first of the loops of
    checks 3, 4 and 5 that raises, and checks 1 and 2 never stop it.  When the
    three loops complete it returns the endpoint total of check 3, with the
    errors of checks 1 to 4 appended in that order, at most one each, and the
    warning of check 5. *)
Theorem rule_engine_result (content : string) (spec : yaml) (s : state) :
  match check_3_loop spec with
  | Raise e => fst (rule_engine content spec s) = Raise e
  | Return (paths_without_op, total_endpoints) =>
      match check_4_loop spec with
      | Raise e => fst (rule_engine content spec s) = Raise e
      | Return missing_params =>
          match check_5_loop spec with
          | Raise e => fst (rule_engine content spec s) = Raise e
          | Return schemas_missing_required =>
              fst (rule_engine content spec s) = Return total_endpoints /\
              errors (snd (rule_engine content spec s)) =
              errors s
              ++ casing_error msg_operationID (findall re_operationID content)
              ++ casing_error msg_Parameters (findall re_Parameters content)
              ++ (if truthy paths_without_op
                  then [msg_without_op paths_without_op] else [])
              ++ (if truthy missing_params
                  then [msg_missing_params missing_params] else []) /\
              warnings (snd (rule_engine content spec s)) =
              warnings s
              ++ (if truthy schemas_missing_required
                  then [msg_schemas (List.length schemas_missing_required)]
                  else [])
          end
      end
  end.
Proof.
  unfold rule_engine, bind.
  rewrite check_1_run, check_2_run, check_3_run.
  destruct (check_3_loop spec) as [[pwo total]|e]; [|reflexivity].
  destruct pwo as [|p ps]; rewrite check_4_run;
    (destruct (check_4_loop spec) as [missing|e]; [|reflexivity]);
    (destruct missing as [|m ms]; rewrite check_5_run;
     (destruct (check_5_loop spec) as [schemas|e]; [|reflexivity]);
     destruct schemas as [|x xs];
     destruct (findall re_operationID content),
              (findall re_Parameters content);
     unfold casing_error; cbn [fst snd errors warnings truthy ret];
     rewrite <- ?app_assoc, ?app_nil_r; cbn [app];
     repeat split; reflexivity).
Qed.

(** ** When the run exits with 0 *)

Lemma summary_outcome_clean (spec : yaml) :
  summary_outcome spec [] [] =
  if versions_present spec then Return true
  else match spec with
       | YDict top =>
           match dict_get top "openapi", dict_get top "info" with
           | Some _, Some (YDict _) => Raise KeyError
           | Some _, Some _ => Raise TypeError
           | _, _ => Raise KeyError
           end
       | _ => Raise TypeError
       end.
Proof.
  unfold summary_outcome, versions_present, subscript. cbn [truthy negb andb].
  destruct spec as [c|l|top]; try reflexivity.
  destruct (dict_get top "openapi"); cbn [obind]; [|reflexivity].
  destruct (dict_get top "info") as [[c|l|info]|]; cbn [obind]; try reflexivity.
  now destruct (dict_get info "version").
Qed.

Lemma summary_outcome_raises (spec : yaml) :
  versions_present spec = false ->
  exists e, summary_outcome spec [] [] = Raise e /\
            (e = KeyError \/ e = TypeError).
Proof.
  intros Hv. rewrite summary_outcome_clean, Hv.
  destruct spec as [c|l|top]; [eauto|eauto|].
  destruct (dict_get top "openapi"), (dict_get top "info") as [[c|l|i]|]; eauto.
Qed.

Lemma summary_outcome_true (spec : yaml) (errs warns : list string) :
  summary_outcome spec errs warns = Return true <->
  errs = [] /\ (warns <> [] \/ versions_present spec = true).
Proof.
  destruct errs as [|e errs].
  - destruct warns as [|w warns].
    + rewrite summary_outcome_clean. split.
      * intros H. split; [reflexivity|]. right.
        destruct (versions_present spec); [reflexivity|].
        destruct spec as [c|l|top]; try discriminate.
        destruct (dict_get top "openapi"), (dict_get top "info") as [[c|l|i]|];
          discriminate.
      * intros [_ [H|H]]; [contradiction|]. now rewrite H.
    + split; [|reflexivity]. intros _. split; [reflexivity|]. left. discriminate.
  - split; [discriminate|]. intros [H _]. discriminate.
Qed.

Lemma main_zero (spec_path : string) (file : file_read) :
  main spec_path file = 0%Z <->
  fst (validate_openapi_spec spec_path file fresh) = Return true.
Proof.
  unfold main.
  destruct (fst (validate_openapi_spec spec_path file fresh)) as [[|]|e];
    split; intros H; try reflexivity; discriminate.
Qed.

(** X8. For a file that loads, the exit code is 0 exactly when the text holds
    neither casing pattern, the loop of check 3 completes with no endpoint
    flagged, the loop of check 4 completes with no endpoint missing, the loop
    of check 5 completes, and either check 5 found a difference (a warning) or
    the document has its "openapi" and "info.version" fields. *)
Theorem exit_zero_iff (spec_path content : string) (spec : yaml) :
  main spec_path (Loaded content spec) = 0%Z <->
  occurrences re_operationID content = 0 /\
  occurrences re_Parameters content = 0 /\
  (exists total_endpoints, check_3_loop spec = Return ([], total_endpoints)) /\
  check_4_loop spec = Return [] /\
  exists schemas_missing_required,
    check_5_loop spec = Return schemas_missing_required /\
    (schemas_missing_required <> [] \/ versions_present spec = true).
Proof.
  rewrite main_zero, validate_loaded.
  set (s0 := mkState [] [] _).
  pose proof (rule_engine_result content spec s0) as R.
  rewrite <- !findall_nil_iff.
  destruct (rule_engine content spec s0) as [o s1]. cbn [fst snd] in R.
  destruct (check_3_loop spec) as [[pwo total]|e3].
  2:{ subst o. cbn [fst]. split; [discriminate|].
      intros (_ & _ & [t H] & _). discriminate. }
  destruct (check_4_loop spec) as [missing|e4].
  2:{ subst o. cbn [fst]. split; [discriminate|].
      intros (_ & _ & _ & H & _). discriminate. }
  destruct (check_5_loop spec) as [schemas|e5].
  2:{ subst o. cbn [fst]. split; [discriminate|].
      intros (_ & _ & _ & _ & x & H & _). discriminate. }
  destruct R as (-> & E & W). subst s0. cbn [errors warnings app] in E, W.
  rewrite summary_run. cbn [fst]. rewrite summary_outcome_true, E, W.
  unfold casing_error.
  destruct (findall re_operationID content) as [|a1 l1],
           (findall re_Parameters content) as [|a2 l2],
           pwo as [|p ps], missing as [|m ms];
    cbn [truthy app];
    try (split;
         [intros [H _]; discriminate
         |intros (H1 & H2 & [t H3] & H4 & _); discriminate || inversion H3]).
  split.
  - intros [_ H]. repeat split; [now exists total|].
    exists schemas. split; [reflexivity|].
    destruct H as [H|H]; [left|now right].
    destruct schemas; [contradiction|discriminate].
  - intros (_ & _ & _ & _ & x & Hx & H). inversion Hx; subst x.
    split; [reflexivity|].
    destruct H as [H|H]; [left|now right].
    destruct schemas; [contradiction|discriminate].
Qed.

(** X9. When every check passes with no warning but the document lacks its
    "openapi" field or its "info.version" field, the run writes the success
    line and then raises, [KeyError] for a missing key and [TypeError] for an
    "info" that is not a mapping: both collections are empty and the exit
    code is 1. *)
Theorem clean_run_without_versions (spec_path content : string) (spec : yaml)
  (total_endpoints : nat) :
  occurrences re_operationID content = 0 ->
  occurrences re_Parameters content = 0 ->
  check_3_loop spec = Return ([], total_endpoints) ->
  check_4_loop spec = Return [] ->
  check_5_loop spec = Return [] ->
  versions_present spec = false ->
  exists e s',
    validate_openapi_spec spec_path (Loaded content spec) fresh = (Raise e, s') /\
    (e = KeyError \/ e = TypeError) /\
    errors s' = [] /\ warnings s' = [] /\
    In PSuccess (stdout s') /\
    main spec_path (Loaded content spec) = 1%Z.
Proof.
  intros H1 H2 H3 H4 H5 Hv.
  apply findall_nil_iff in H1, H2.
  assert (V : exists e s',
             validate_openapi_spec spec_path (Loaded content spec) fresh
             = (Raise e, s') /\
             (e = KeyError \/ e = TypeError) /\
             errors s' = [] /\ warnings s' = [] /\ In PSuccess (stdout s')).
  { rewrite validate_loaded. set (s0 := mkState [] [] _).
    pose proof (rule_engine_result content spec s0) as R.
    rewrite H3, H4, H5, H1, H2 in R.
    destruct (rule_engine content spec s0) as [o s1]. cbn [fst snd] in R.
    destruct R as (-> & E & W). subst s0.
    cbn [errors warnings app casing_error truthy] in E, W.
    rewrite summary_run, E, W.
    destruct (summary_outcome_raises spec Hv) as (e & -> & He).
    eexists; eexists. split; [reflexivity|].
    cbn [errors warnings stdout].
    split; [exact He|]. split; [reflexivity|]. split; [reflexivity|].
    apply in_or_app. right. right. now left. }
  destruct V as (e & s' & V & He & E & W & P).
  exists e, s'. repeat split; auto.
  unfold main. now rewrite V.
Qed.

Lemma clean_run_without_versions_witness :
  occurrences re_operationID unversioned_text = 0 /\
  occurrences re_Parameters unversioned_text = 0 /\
  check_3_loop unversioned = Return ([], 6) /\
  check_4_loop unversioned = Return [] /\
  check_5_loop unversioned = Return [] /\
  versions_present unversioned = false /\
  main "api/openapi.yaml" (Loaded unversioned_text unversioned) = 1%Z.
Proof.
  assert (H1 : occurrences re_operationID unversioned_text = 0)
    by (vm_compute; reflexivity).
  assert (H2 : occurrences re_Parameters unversioned_text = 0)
    by (vm_compute; reflexivity).
  assert (H3 : check_3_loop unversioned = Return ([], 6))
    by (vm_compute; reflexivity).
  assert (H4 : check_4_loop unversioned = Return []) by (vm_compute; reflexivity).
  assert (H5 : check_5_loop unversioned = Return []) by (vm_compute; reflexivity).
  assert (H6 : versions_present unversioned = false) by reflexivity.
  destruct (clean_run_without_versions "api/openapi.yaml" unversioned_text
              unversioned 6 H1 H2 H3 H4 H5 H6)
    as (e & s' & _ & _ & _ & _ & _ & M).
  repeat (split; [assumption|]). exact M.
Defined.

Lemma check_3_flags_witness :
  dict_get [(SStr "paths", paths_mapping (keyed half_identified))] "paths"
  = Some (paths_mapping (keyed half_identified)) /\
  ascii_keys half_identified = true /\
  check_3_loop (YDict [(SStr "paths", paths_mapping (keyed half_identified))])
  = Return (["GET /ping"], 2) /\
  errors (snd (check_3
                 (YDict [(SStr "paths", paths_mapping (keyed half_identified))])
                 fresh))
  = [msg_without_op ["GET /ping"]].
Proof.
  destruct (check_3_flags [(SStr "paths", paths_mapping (keyed half_identified))]
              half_identified fresh eq_refl eq_refl) as (L & _ & _ & E).
  split; [reflexivity|]. split; [reflexivity|]. split; [exact L|exact E].
Defined.

Lemma check_3_passes_iff_witness :
  dict_get [(SStr "paths", paths_mapping mixed_entries)] "paths"
  = Some (paths_mapping mixed_entries) /\
  unidentified_count mixed_entries = 0 /\
  check_3_loop (YDict [(SStr "paths", paths_mapping mixed_entries)])
  = Return ([], 1).
Proof.
  destruct (check_3_passes_iff [(SStr "paths", paths_mapping mixed_entries)]
              mixed_entries eq_refl) as (_ & Pass).
  split; [reflexivity|]. split; [reflexivity|].
  exact (proj2 Pass eq_refl).
Defined.

(** ** The exceptions of the rule engine *)

Lemma for_acc_raises {A B} (l : list A) (acc : B) (body : B -> A -> outcome B)
  (e : exn) :
  for_acc l acc body = Raise e ->
  exists acc' x, In x l /\ body acc' x = Raise e.
Proof.
  revert acc; induction l as [|x l IH]; intros acc H; [discriminate|].
  cbn [for_acc] in H. destruct (body acc x) as [acc'|e'] eqn:Hx; cbn [obind] in H.
  - destruct (IH _ H) as (a & y & Hy & Hb). exists a, y. split; [now right|exact Hb].
  - inversion H; subst. exists acc, x. split; [now left|exact Hx].
Qed.

Lemma check_3_path_no_KeyError (acc : list string * nat) (entry : scalar * yaml) :
  check_3_path acc entry <> Raise KeyError.
Proof.
  destruct entry as [path methods]. unfold check_3_path.
  destruct methods as [c|l|ms]; cbn [items obind]; try discriminate.
  intros H. apply for_acc_raises in H as ([pwo t] & [m d] & _ & H).
  rewrite check_3_method_step in H.
  destruct (is_endpoint (m, d)); [|discriminate].
  destruct (has_operationId d); [discriminate|].
  destruct m; discriminate.
Qed.

Lemma check_3_loop_KeyError (spec : yaml) :
  check_3_loop spec = Raise KeyError <->
  exists top, spec = YDict top /\ dict_get top "paths" = None.
Proof.
  unfold check_3_loop, subscript. split.
  - intros H. destruct spec as [c|l|top]; try discriminate.
    destruct (dict_get top "paths") as [paths|] eqn:Hp; [|eauto].
    cbn [obind] in H. destruct paths as [c|l|ps]; cbn [items obind] in H;
      try discriminate.
    apply for_acc_raises in H as (a & x & _ & H).
    now apply check_3_path_no_KeyError in H.
  - intros (top & -> & Hp). now rewrite Hp.
Qed.

Lemma obind_no_KeyError {A B} (o : outcome A) (k : A -> outcome B) :
  o <> Raise KeyError -> (forall a, k a <> Raise KeyError) ->
  obind o k <> Raise KeyError.
Proof.
  intros Ho Hk. destruct o as [a|e]; cbn [obind]; [apply Hk|congruence].
Qed.

Lemma get_no_KeyError (v : yaml) (k : string) (default : yaml) :
  get v k default <> Raise KeyError.
Proof.
  unfold get. destruct v as [c|l|d]; try discriminate.
  destruct (dict_get d k); discriminate.
Qed.

Lemma iter_no_KeyError (v : yaml) : iter v <> Raise KeyError.
Proof. destruct v as [[| | | |t]|l|d]; discriminate. Qed.

Lemma navigation_no_KeyError (top : list (scalar * yaml)) (paths : yaml) :
  dict_get top "paths" = Some paths ->
  (forall method path, has_userId (YDict top) method path <> Raise KeyError) /\
  (forall method path status,
     declared_required (YDict top) method path status <> Raise KeyError).
Proof.
  intros Hp. split.
  - intros method path. unfold has_userId, subscript. rewrite Hp. cbn [obind].
    repeat (apply obind_no_KeyError; [apply get_no_KeyError|intros ?]).
    apply obind_no_KeyError; [apply iter_no_KeyError|intros ?]. discriminate.
  - intros method path status. unfold declared_required, subscript.
    rewrite Hp. cbn [obind].
    repeat (apply obind_no_KeyError; [apply get_no_KeyError|intros ?]).
    apply get_no_KeyError.
Qed.

Lemma missing_fields_no_KeyError (required : yaml) (expected_required : list string) :
  missing_fields required expected_required <> Raise KeyError.
Proof.
  induction expected_required as [|f rest IH]; [discriminate|].
  cbn [missing_fields].
  destruct (contains required f) as [b|e] eqn:C; cbn [obind].
  - destruct (missing_fields required rest) as [m|e]; cbn [obind];
      [discriminate|congruence].
  - destruct required as [[| | | |t]|l|d]; cbn in C; congruence.
Qed.

(** X10. The rule engine raises [KeyError] exactly when the parsed document
    is a mapping without a "paths" key; it is check 3 that raises it, after
    checks 1 and 2 have run.  With a "paths" key present the engine never
    raises [KeyError]. *)
Theorem rule_engine_KeyError (content : string) (spec : yaml) (s : state) :
  fst (rule_engine content spec s) = Raise KeyError <->
  exists top, spec = YDict top /\ dict_get top "paths" = None.
Proof.
  pose proof (rule_engine_result content spec s) as R.
  rewrite <- check_3_loop_KeyError.
  destruct (check_3_loop spec) as [[pwo total]|e3] eqn:L3.
  2:{ rewrite R. split; intros H; inversion H; reflexivity. }
  assert (Hp : exists top paths, spec = YDict top /\ dict_get top "paths" = Some paths).
  { unfold check_3_loop, subscript in L3.
    destruct spec as [c|l|top]; try discriminate.
    destruct (dict_get top "paths") as [paths|] eqn:Hp; [|discriminate].
    exists top, paths. split; [reflexivity|exact Hp]. }
  destruct Hp as (top & paths & -> & Hp).
  destruct (navigation_no_KeyError top paths Hp) as [N4 N5].
  split; [|discriminate]. intros H. exfalso.
  destruct (check_4_loop (YDict top)) as [missing|e4] eqn:L4.
  - destruct (check_5_loop (YDict top)) as [schemas|e5] eqn:L5.
    + destruct R as [R _]. congruence.
    + rewrite R in H. inversion H; subst e5.
      apply for_acc_raises in L5 as (acc & [[[m p] st] ex] & _ & B).
      unfold check_5_response in B.
      destruct (declared_required (YDict top) m p st) as [req|e] eqn:D;
        cbn [obind] in B.
      * destruct (missing_fields req ex) as [mf|e] eqn:F; cbn [obind] in B.
        -- destruct (truthy mf); discriminate.
        -- inversion B; subst e. now apply missing_fields_no_KeyError in F.
      * inversion B; subst e. now apply N5 in D.
  - rewrite R in H. inversion H; subst e4.
    apply for_acc_raises in L4 as (acc & [m p] & _ & B).
    unfold check_4_endpoint in B.
    destruct (has_userId (YDict top) m p) as [b|e] eqn:U; cbn [obind] in B.
    + destruct (negb b); discriminate.
    + inversion B; subst e. now apply N4 in U.
Qed.

Lemma names_userId_filter (l : list yaml) :
  existsb names_userId (filter isinstance_dict l) = existsb names_userId l.
Proof.
  induction l as [|x l IH]; [reflexivity|].
  cbn [filter existsb].
  destruct x as [c|l'|p]; cbn [isinstance_dict existsb names_userId orb];
    [exact IH|exact IH|now rewrite IH].
Qed.

(** X11. For an operation that is present, what check 4 makes of its
    "parameters" depends on the kind of value: a sequence is searched; a
    mapping or a string is walked without an exception and never provides the
    parameter; any other scalar (null, a boolean, a number) raises
    [TypeError]. *)
Theorem has_userId_by_parameters (spec : yaml) (method path : string)
  (op : list (scalar * yaml)) (parameters : yaml) :
  operation_at spec method path op ->
  dict_get op "parameters" = Some parameters ->
  has_userId spec method path =
  match parameters with
  | YList l => Return (existsb names_userId l)
  | YDict _ => Return false
  | YScalar (SStr _) => Return false
  | YScalar _ => Raise TypeError
  end.
Proof.
  intros (top & paths & methods & -> & Hp & Hm & Ho) Hps.
  unfold has_userId, subscript, get. rewrite Hp. cbn [obind].
  rewrite Hm. cbn [obind]. rewrite Ho. cbn [obind]. rewrite Hps. cbn [obind].
  destruct parameters as [[| | | |t]|l|d]; cbn [iter obind]; try reflexivity.
  - now rewrite no_mapping_among_chars.
  - now rewrite names_userId_filter.
  - now rewrite no_mapping_among_keys.
Qed.

Lemma has_userId_by_parameters_witness :
  operation_at null_parameters "get" "/user/{userId}"
    [(SStr "operationId", YStr "getUser"); (SStr "parameters", YScalar SNone)] /\
  dict_get [(SStr "operationId", YStr "getUser");
            (SStr "parameters", YScalar SNone)] "parameters"
  = Some (YScalar SNone) /\
  has_userId null_parameters "get" "/user/{userId}" = Raise TypeError.
Proof.
  assert (O : operation_at null_parameters "get" "/user/{userId}"
                [(SStr "operationId", YStr "getUser");
                 (SStr "parameters", YScalar SNone)]).
  { unfold operation_at. do 3 eexists.
    split; [reflexivity|]. split; [reflexivity|]. split; reflexivity. }
  split; [exact O|]. split; [reflexivity|].
  exact (has_userId_by_parameters null_parameters "get" "/user/{userId}"
           _ (YScalar SNone) O eq_refl).
Defined.

(** ** A key missing on the way to "required" *)

Lemma obind_assoc {A B C} (o : outcome A) (f : A -> outcome B) (g : B -> outcome C) :
  obind (obind o f) g = obind o (fun a => obind (f a) g).
Proof. now destruct o. Qed.

Lemma descend_app (pre post : list string) (v : yaml) :
  descend (pre ++ post) v = obind (descend pre v) (descend post).
Proof.
  revert v; induction pre as [|k pre IH]; intros v; [reflexivity|].
  cbn [app descend]. rewrite obind_assoc.
  destruct (get v k (YDict [])) as [x|e]; cbn [obind]; [apply IH|reflexivity].
Qed.

Lemma descend_empty (keys : list string) :
  descend keys (YDict []) = Return (YDict []).
Proof. induction keys as [|k keys IH]; [reflexivity|exact IH]. Qed.

Lemma declared_required_descend (spec : yaml) (method path status : string) :
  declared_required spec method path status =
  obind (subscript spec "paths")
    (fun paths =>
       obind (descend (response_keys method path status) paths)
         (fun schema => get schema "required" (YList []))).
Proof.
  unfold declared_required, response_keys. cbn [descend].
  destruct (subscript spec "paths") as [paths|e]; cbn [obind]; [|reflexivity].
  repeat (rewrite obind_assoc;
          match goal with
          | |- obind ?o _ = obind ?o _ =>
              destruct o; cbn [obind]; [|reflexivity]
          end).
  reflexivity.
Qed.

Lemma missing_fields_of_nothing (expected_required : list string) :
  missing_fields (YList []) expected_required = Return expected_required.
Proof.
  induction expected_required as [|f rest IH]; [reflexivity|].
  cbn [missing_fields contains existsb obind]. now rewrite IH.
Qed.

(** X12. When, on the way from the paths mapping to the schema of a response,
    the navigation of check 5 has met mappings only and the next key is
    missing, it goes on through empty mappings without an exception and ends
    on the empty sequence: every field of the baseline is then reported
    missing. *)
Theorem missing_key_whole_baseline (top : list (scalar * yaml)) (paths : yaml)
  (method path status : string) (expected_required : list string)
  (pre post : list string) (k : string) (d : list (scalar * yaml)) :
  dict_get top "paths" = Some paths ->
  response_keys method path status = pre ++ k :: post ->
  descend pre paths = Return (YDict d) ->
  dict_get d k = None ->
  declared_required (YDict top) method path status = Return (YList []) /\
  difference (YDict top) (method, path, status, expected_required)
  = Return expected_required.
Proof.
  intros Hp Hk Hd Hno.
  assert (D : declared_required (YDict top) method path status = Return (YList [])).
  { rewrite declared_required_descend. unfold subscript. rewrite Hp.
    cbn [obind]. rewrite Hk, descend_app, Hd. cbn [obind descend get].
    rewrite Hno. cbn [obind]. now rewrite descend_empty. }
  split; [exact D|].
  unfold difference. rewrite D. cbn [obind]. apply missing_fields_of_nothing.
Qed.

Lemma missing_key_whole_baseline_witness :
  difference no_responses ("GET", "/orders", "200", ["orders"; "total"])
  = Return ["orders"; "total"] /\
  difference bare ("GET", "/orders", "200", ["orders"; "total"])
  = Return ["orders"; "total"].
Proof.
  split.
  - exact (proj2 (missing_key_whole_baseline
                    [(SStr "paths",
                      YDict [(SStr "/orders",
                              YDict [(SStr "get",
                                      YDict [(SStr "operationId",
                                              YStr "listOrders")])])])]
                    _ "GET" "/orders" "200" ["orders"; "total"]
                    ["/orders"; "get"]
                    ["200"; "content"; "application/json"; "schema"]
                    "responses" [(SStr "operationId", YStr "listOrders")]
                    eq_refl eq_refl eq_refl eq_refl)).
  - exact (proj2 (missing_key_whole_baseline
                    [(SStr "paths", YDict [])]
                    _ "GET" "/orders" "200" ["orders"; "total"]
                    []
                    ["get"; "responses"; "200"; "content"; "application/json";
                     "schema"]
                    "/orders" [] eq_refl eq_refl eq_refl eq_refl)).
Defined.

(** * The documents on which the rule engine completes *)






















